(** * ModuleSpec: serialisable constructor specs (openx/utils/spec.py)

    A shallow embedding of [ModuleSpec.create], [ModuleSpec.instantiate],
    [ModuleSpec.to_string], [ModuleSpec.is_module_spec], [add_kwarg] and
    [recursively_instantiate], and the properties their specification
    states about them; and of the robomimic environment adapter
    (openx/envs/robomimic.py). *)

From Stdlib Require Import ZArith String Ascii List.
From stdpp Require Import base list strings pretty gmap.

Set Warnings "-register-all".
Open Scope string_scope.

(** ** Python exceptions and results *)

(** The [ValueError]s raised in the module, told apart by their message. *)
Inductive value_error :=
| ExpectedModuleSpec   (* "Expected ModuleSpec, but got ..." *)
| CouldNotInfer        (* "Could not infer identifier for ..." *)
| CouldNotImport       (* "Could not import ..." *)
| TooManyValues.       (* unpacking a list that has not two items *)

Inductive exn :=
| AssertionError
| ValueError (m : value_error)
| TypeError
| KeyError (k : string)
| AttributeError
| SystemError          (* a dangling reference: no Python program reaches it *)
| Raised (code : nat). (* an exception raised by a constructible *)

Inductive result (A : Type) :=
| Ok (a : A)
| Err (e : exn).
Arguments Ok {A} a.
Arguments Err {A} e.

Definition rbind {A B} (m : result A) (k : A -> result B) : result B :=
  match m with
  | Ok a => k a
  | Err e => Err e
  end.

Notation "'let?' x := m 'in' k" := (rbind m (fun x => k))
  (at level 10, x name, m at level 100, k at level 200).
Notation "'let?' ( x , y ) := m 'in' k" := (rbind m (fun '(x, y) => k))
  (at level 10, x name, y name, m at level 100, k at level 200).

(** ** Strings: [str.count], [str.split] and [str.join] with a one-character separator *)

Fixpoint count (sep : ascii) (s : string) : nat :=
  match s with
  | EmptyString => 0
  | String c s' => (if Ascii.eqb c sep then 1 else 0) + count sep s'
  end.

Fixpoint split (sep : ascii) (s : string) : list string :=
  match s with
  | EmptyString => [EmptyString]
  | String c s' =>
      if Ascii.eqb c sep then EmptyString :: split sep s'
      else match split sep s' with
           | [] => [String c EmptyString]
           | w :: ws => String c w :: ws
           end
  end.

Fixpoint join (sep : string) (parts : list string) : string :=
  match parts with
  | [] => EmptyString
  | [p] => p
  | p :: ps => p ++ sep ++ join sep ps
  end.

(** The characters of a string, as iterating over it yields them. *)
Fixpoint chars (s : string) : list string :=
  match s with
  | EmptyString => []
  | String c s' => String c EmptyString :: chars s'
  end.

(** ** Values *)

(** A function or class object: [__module__] and [__name__] when it has them. *)
Record callable := Callable {
  co_module : option string;
  co_name : option string;
  co_id : nat
}.

(** Python values as trees.  A [dict] (or an instance of a subclass of
    [dict]) keeps its items in insertion order; its keys are strings, as
    in a JSON-like config.  [VMapping] is a
    mapping that is not a [dict] (a [UserDict], a [ConfigDict]): it has
    [keys()], [items()], [len] and item access, and [isinstance(_, dict)]
    is false of it.  A [partial] object holds a plain callable:
    [functools.partial] flattens nested ones. *)
Inductive value :=
| VNone
| VBool (b : bool)
| VInt (z : Z)
| VStr (s : string)
| VTuple (xs : list value)
| VList (xs : list value)
| VSet (xs : list value)
| VDict (items : list (string * value))
| VMapping (items : list (string * value))
| VCallable (c : callable)
| VPartial (func : callable) (args : list value) (keywords : list (string * value))
| VObject (id : nat).

(** ** Dictionaries as ordered item lists *)

Section Dict.
Context {V : Type}.

Fixpoint dict_get (items : list (string * V)) (k : string) : option V :=
  match items with
  | [] => None
  | (k', v) :: rest => if String.eqb k k' then Some v else dict_get rest k
  end.

(** [k in d] *)
Definition dict_mem (items : list (string * V)) (k : string) : bool :=
  match dict_get items k with Some _ => true | None => false end.

(** [d[k] = v]: overwrite in place, or append a new item. *)
Fixpoint dict_set (items : list (string * V)) (k : string) (v : V) : list (string * V) :=
  match items with
  | [] => [(k, v)]
  | (k', v') :: rest =>
      if String.eqb k k' then (k', v) :: rest else (k', v') :: dict_set rest k v
  end.

(** [{**d, **e}] *)
Definition dict_update (d e : list (string * V)) : list (string * V) :=
  fold_left (fun acc kv => dict_set acc kv.1 kv.2) e d.

Definition spec_keys : list string := ["module"; "name"; "args"; "kwargs"].

(** [all([k in d for k in ("module", "name", "args", "kwargs")]) and len(d) == 4] *)
Definition dict_is_spec (items : list (string * V)) : bool :=
  forallb (dict_mem items) spec_keys && (length items =? 4)%nat.

End Dict.

(** [set(ks) != {"module", "name", "args", "kwargs"}] *)
Definition keys_differ (ks : list string) : bool :=
  bool_decide (list_to_set ks ≠@{gset string} list_to_set spec_keys).

(** [ModuleSpec.is_module_spec]: the first conjunct is [isinstance(d, dict)]. *)
Definition is_module_spec (d : value) : bool :=
  match d with
  | VDict items => dict_is_spec items
  | _ => false
  end.

(** [d[k]] for a string [k] *)
Definition getitem (d : value) (k : string) : result value :=
  match d with
  | VDict items | VMapping items =>
      match dict_get items k with
      | Some v => Ok v
      | None => Err (KeyError k)
      end
  | _ => Err TypeError
  end.

(** [d.keys()] *)
Definition keys (d : value) : result (list string) :=
  match d with
  | VDict items | VMapping items => Ok items.*1
  | _ => Err AttributeError
  end.

(** The shape check of [instantiate]:
    [if set(spec.keys()) != {"module", "name", "args", "kwargs"}: raise ValueError(..)] *)
Definition check_keys (spec : value) : result unit :=
  let? ks := keys spec in
  if keys_differ ks then Err (ValueError ExpectedModuleSpec) else Ok tt.

(** [d.items()] *)
Definition items_of (d : value) : result (list (string * value)) :=
  match d with
  | VDict items | VMapping items => Ok items
  | _ => Err AttributeError
  end.

(** [*x] in a call: the elements [x] yields when iterated. *)
Definition unpack_iter (x : value) : result (list value) :=
  match x with
  | VTuple xs | VList xs | VSet xs => Ok xs
  | VDict items | VMapping items => Ok (VStr <$> items.*1)
  | VStr s => Ok (VStr <$> chars s)
  | _ => Err TypeError
  end.

(** [**x] in a call *)
Definition unpack_mapping (x : value) : result (list (string * value)) :=
  match x with
  | VDict items | VMapping items => Ok items
  | _ => Err TypeError
  end.

(** [bool(x)] *)
Definition truthy (x : value) : bool :=
  match x with
  | VNone => false
  | VBool b => b
  | VInt z => negb (z =? 0)%Z
  | VStr s => negb (String.eqb s "")
  | VTuple xs | VList xs | VSet xs => negb (length xs =? 0)%nat
  | VDict items | VMapping items => negb (length items =? 0)%nat
  | _ => true
  end.

(** ** [ModuleSpec.create] *)

Definition _infer_full_name (o : value) : result (string * string) :=
  match o with
  | VCallable c =>
      match co_module c, co_name c with
      | Some m, Some n => Ok (m, n)
      | _, _ => Err (ValueError CouldNotInfer)
      end
  | _ => Err (ValueError CouldNotInfer)
  end.

(** [ModuleSpec(module=.., name=.., args=.., kwargs=..)] *)
Definition ModuleSpec (module name args kwargs : value) : value :=
  VDict [("module", module); ("name", name); ("args", args); ("kwargs", kwargs)].

Definition create (callable_or_full_name : value)
    (args : list value) (kwargs : list (string * value)) : result value :=
  let? (module, name) :=
    match callable_or_full_name with
    | VStr s =>
        if (count ":" s =? 1)%nat then
          match split ":" s with
          | [module; name] => Ok (module, name)
          | _ => Err (ValueError TooManyValues)
          end
        else Err AssertionError
    | o => _infer_full_name o
    end in
  Ok (ModuleSpec (VStr module) (VStr name) (VTuple args) (VDict kwargs)).

(** ** The runtime: imports and calls of constructibles

    Importing a module and calling a constructible are the two effects of
    the module.  Both act on an abstract world [W]; a ghost [trace] records
    them in the order they happen. *)

Inductive event :=
| EvImport (module : string)
| EvCall (c : callable) (args : list value) (kwargs : list (string * value)).

Record state (W : Type) := State {
  world : W;
  trace : list event
}.
Arguments State {W} world trace.
Arguments world {W} s.
Arguments trace {W} s.

Definition M (W A : Type) : Type := state W -> result A * state W.

Definition ret {W A} (a : A) : M W A := fun s => (Ok a, s).

Definition raise {W A} (e : exn) : M W A := fun s => (Err e, s).

Definition bind {W A B} (m : M W A) (k : A -> M W B) : M W B :=
  fun s =>
    match m s with
    | (Ok a, s') => k a s'
    | (Err e, s') => (Err e, s')
    end.

Definition lift {W A} (r : result A) : M W A := fun s => (r, s).

Notation "x <- m ;; k" := (bind m (fun x => k))
  (at level 100, m at next level, right associativity).

Definition mapM {W A B} (f : A -> M W B) : list A -> M W (list B) :=
  fix go (l : list A) : M W (list B) :=
    match l with
    | [] => ret []
    | x :: l' => y <- f x ;; ys <- go l' ;; ret (y :: ys)
    end.

(** [f(d[k])], failing with [KeyError] when [k] is not a key of [d]. *)
Definition with_item {W A B} (f : A -> M W B) (k : string) : list (string * A) -> M W B :=
  fix go (items : list (string * A)) : M W B :=
    match items with
    | [] => raise (KeyError k)
    | (k', v) :: rest => if String.eqb k k' then f v else go rest
    end.

(** A module object, as [getattr] sees it. *)
Definition module_attrs : Type := string -> option value.

(** [functools.partial(func, *args, **keywords)] *)
Definition partial (func : value) (args : list value)
    (keywords : list (string * value)) : result value :=
  match func with
  | VCallable c => Ok (VPartial c args keywords)
  | VPartial c args0 keywords0 =>
      Ok (VPartial c (args0 ++ args) (dict_update keywords0 keywords))
  | _ => Err TypeError
  end.

Section Runtime.
Context {W : Type}.

(** [importlib.import_module]: the module's attributes, or [None] when
    the import raises. *)
Variable import_module : string -> W -> option module_attrs * W.

(** Calling a function or class with positional and keyword arguments. *)
Variable invoke : callable -> list value -> list (string * value) -> W -> result value * W.

Definition do_import (module : string) : M W (option module_attrs) :=
  fun s =>
    let (r, w) := import_module module (world s) in
    (Ok r, State w (trace s ++ [EvImport module])).

Definition do_call (c : callable) (args : list value)
    (kwargs : list (string * value)) : M W value :=
  fun s =>
    let (r, w) := invoke c args kwargs (world s) in
    (r, State w (trace s ++ [EvCall c args kwargs])).

(** Any exception of the lookup is turned into the one [ValueError]. *)
Definition _import_from_string (module_string name : value) : M W value :=
  match module_string with
  | VStr m =>
      module <- do_import m ;;
      match module, name with
      | Some attrs, VStr n =>
          match attrs n with
          | Some v => ret v
          | None => raise (ValueError CouldNotImport)
          end
      | _, _ => raise (ValueError CouldNotImport)
      end
  | _ => raise (ValueError CouldNotImport)
  end.

Definition instantiate (spec : value) : M W value :=
  match spec with
  | VNone => ret VNone
  | _ =>
      _ <- lift (check_keys spec) ;;
      module <- lift (getitem spec "module") ;;
      name <- lift (getitem spec "name") ;;
      cls <- _import_from_string module name ;;
      a <- lift (getitem spec "args") ;;
      args <- lift (unpack_iter a) ;;
      k <- lift (getitem spec "kwargs") ;;
      kwargs <- lift (unpack_mapping k) ;;
      lift (partial cls args kwargs)
  end.

(** Calling [f] with positional arguments [args] and keyword arguments [kwargs]. *)
Definition call (f : value) (args : list value)
    (kwargs : list (string * value)) : M W value :=
  match f with
  | VCallable c => do_call c args kwargs
  | VPartial c args0 keywords =>
      do_call c (args0 ++ args) (dict_update keywords kwargs)
  | _ => raise TypeError
  end.

Fixpoint recursively_instantiate (obj : value) : M W value :=
  match obj with
  | VDict items =>
      if dict_is_spec items then
        module <- lift (getitem obj "module") ;;
        name <- lift (getitem obj "name") ;;
        args <- with_item recursively_instantiate "args" items ;;
        kwargs <- with_item recursively_instantiate "kwargs" items ;;
        binding <- instantiate (ModuleSpec module name args kwargs) ;;
        call binding [] []
      else
        items' <- mapM (fun kv => v <- recursively_instantiate kv.2 ;; ret (kv.1, v)) items ;;
        ret (VDict items')
  | VTuple xs => xs' <- mapM recursively_instantiate xs ;; ret (VTuple xs')
  | VList xs => xs' <- mapM recursively_instantiate xs ;; ret (VList xs')
  | _ => ret obj
  end.
End Runtime.

(** ** [ModuleSpec.to_string] *)

(** [str] items of an iterable, as [str.join] requires them. *)
Fixpoint as_strs (xs : list value) : result (list string) :=
  match xs with
  | [] => Ok []
  | VStr s :: rest => let? ss := as_strs rest in Ok (s :: ss)
  | _ :: _ => Err TypeError
  end.

(** [sep.join(x)] *)
Definition str_join (sep : string) (x : value) : result string :=
  let? xs := unpack_iter x in
  let? parts := as_strs xs in
  Ok (join sep parts).

Section Render.
(** The builtin [str], which an f-string applies to each field. *)
Variable py_str : value -> string.

Definition to_string (spec : value) : result string :=
  let? module := getitem spec "module" in
  let? name := getitem spec "name" in
  let? a := getitem spec "args" in
  let? args := str_join ", " a in
  let? a' := getitem spec "args" in
  let? sep :=
    if truthy a' then
      let? kw := getitem spec "kwargs" in
      Ok (if truthy kw then ", " else "")
    else Ok "" in
  let? kw := getitem spec "kwargs" in
  let? items := items_of kw in
  Ok (py_str module ++ ":" ++ py_str name ++ "(" ++ args ++ sep
      ++ join ", " ((fun kv => kv.1 ++ "=" ++ py_str kv.2) <$> items) ++ ")").
End Render.

(** [str] on the scalars of a config; other values print as a placeholder. *)
Definition str_scalar (v : value) : string :=
  match v with
  | VNone => "None"
  | VBool true => "True"
  | VBool false => "False"
  | VInt z => pretty z
  | VStr s => s
  | _ => "<object>"
  end.

(** ** [add_kwarg]: in-place update through a store of objects

    [add_kwarg] mutates the dict it reaches, so here dicts live in a store
    and are held by reference: two paths may reach the same dict. *)

Module Store.
Definition loc := nat.

Inductive hval :=
| HNone
| HBool (b : bool)
| HInt (z : Z)
| HStr (s : string)
| HRef (l : loc).

Inductive hobj :=
| ODict (items : list (string * hval))
| OMapping (items : list (string * hval))   (* a mutable mapping that is not a dict *)
| OList (xs : list hval)
| OTuple (xs : list hval)
| OOther.

Abbreviation heap := (gmap loc hobj).

(** [ModuleSpec.is_module_spec] *)
Definition is_module_spec (h : heap) (d : hval) : bool :=
  match d with
  | HRef l =>
      match h !! l with
      | Some (ODict items) => dict_is_spec items
      | _ => false
      end
  | _ => false
  end.

(** [d[k]] for a string [k] *)
Definition getitem (h : heap) (d : hval) (k : string) : result hval :=
  match d with
  | HRef l =>
      match h !! l with
      | Some (ODict items) | Some (OMapping items) =>
          match dict_get items k with
          | Some v => Ok v
          | None => Err (KeyError k)
          end
      | Some _ => Err TypeError
      | None => Err SystemError
      end
  | _ => Err TypeError
  end.

(** [d[k] = v] for a string [k] *)
Definition setitem (h : heap) (d : hval) (k : string) (v : hval) : result heap :=
  match d with
  | HRef l =>
      match h !! l with
      | Some (ODict items) => Ok (<[l := ODict (dict_set items k v)]> h)
      | Some (OMapping items) => Ok (<[l := OMapping (dict_set items k v)]> h)
      | Some _ => Err TypeError
      | None => Err SystemError
      end
  | _ => Err TypeError
  end.

(** The items of a dict or of another mapping, and the same object over
    other items. *)
Definition mapping_items (o : hobj) : option (list (string * hval)) :=
  match o with
  | ODict items | OMapping items => Some items
  | _ => None
  end.

Definition set_mapping_items (o : hobj) (items : list (string * hval)) : hobj :=
  match o with
  | ODict _ => ODict items
  | OMapping _ => OMapping items
  | _ => o
  end.

(** [if ModuleSpec.is_module_spec(d): d = d["kwargs"]] *)
Definition enter_kwargs (h : heap) (d : hval) : result hval :=
  if is_module_spec h d then getitem h d "kwargs" else Ok d.

(** One turn of the loop over [key_parts[:-1]]. *)
Definition descend (h : heap) (d : hval) (key_part : string) : result hval :=
  let? d := enter_kwargs h d in
  getitem h d key_part.

Definition add_kwarg (h : heap) (d : hval) (k : string) (v : hval) : result heap :=
  let key_parts := split "." k in
  let? d := fold_left (fun acc key_part => let? d := acc in descend h d key_part)
              (removelast key_parts) (Ok d) in
  let? d := enter_kwargs h d in
  setitem h d (List.last key_parts "") v.

(** The logical location a list of names addresses from [d], in the
    words of the specification: at a Spec node the next name is looked
    up in its [kwargs], at any other node in the node itself. *)
Inductive locates (h : heap) : hval -> list string -> hval -> Prop :=
| locates_here d :
    locates h d [] d
| locates_spec d kw name next rest target :
    is_module_spec h d = true ->
    getitem h d "kwargs" = Ok kw ->
    getitem h kw name = Ok next ->
    locates h next rest target ->
    locates h d (name :: rest) target
| locates_plain d name next rest target :
    is_module_spec h d = false ->
    getitem h d name = Ok next ->
    locates h next rest target ->
    locates h d (name :: rest) target.

(** The mapping the final name is set in: the [kwargs] of a Spec node, any
    other node itself. *)
Inductive holder (h : heap) : hval -> loc -> Prop :=
| holder_spec d l :
    is_module_spec h d = true ->
    getitem h d "kwargs" = Ok (HRef l) ->
    holder h d l
| holder_plain l :
    is_module_spec h (HRef l) = false ->
    holder h (HRef l) l.

(** A config for the examples: [{"a": Spec(kwargs={"b": Spec(kwargs={"x": 1})})}],
    each dict an object of its own. *)
Definition example_store : heap :=
  {[ 1 := ODict [("a", HRef 2)];
     2 := ODict [("module", HStr "math"); ("name", HStr "Add");
                 ("args", HRef 7); ("kwargs", HRef 3)];
     3 := ODict [("b", HRef 4)];
     4 := ODict [("module", HStr "math"); ("name", HStr "Add");
                 ("args", HRef 7); ("kwargs", HRef 5)];
     5 := ODict [("x", HInt 1)];
     7 := OTuple [] ]}.
End Store.

(** ** Notions the properties are stated with *)

(** The keys of a dict are distinct; other values carry no constraint. *)
Definition distinct_keys (v : value) : Prop :=
  match v with
  | VDict items | VMapping items => NoDup items.*1
  | _ => True
  end.

(** What the shape predicates can see of a value: whether it is a
    [dict], another mapping or neither, and the keys of a mapping. *)
Inductive shape :=
| DictShape (ks : list string)
| MappingShape (ks : list string)
| OtherShape.

Definition shape_of (v : value) : shape :=
  match v with
  | VDict items => DictShape items.*1
  | VMapping items => MappingShape items.*1
  | _ => OtherShape
  end.

Definition store_shape_of (h : Store.heap) (d : Store.hval) : shape :=
  match d with
  | Store.HRef l =>
      match h !! l with
      | Some (Store.ODict items) => DictShape items.*1
      | Some (Store.OMapping items) => MappingShape items.*1
      | _ => OtherShape
      end
  | _ => OtherShape
  end.

(** No node of the structure is a Spec: neither the value itself nor any
    element of a tuple, list, set or dict inside it. *)
Fixpoint spec_free (v : value) : bool :=
  match v with
  | VTuple xs | VList xs | VSet xs => forallb spec_free xs
  | VDict items =>
      negb (dict_is_spec items) && forallb (fun kv => spec_free kv.2) items
  | VMapping items => forallb (fun kv => spec_free kv.2) items
  | _ => true
  end.


(** Each element of [xs] is run through [f] in turn, left to right, the
    state of one run being the start of the next. *)
Inductive each_in_turn {W A B} (f : A -> M W B) :
    list A -> state W -> list B -> state W -> Prop :=
| each_nil s :
    each_in_turn f [] s [] s
| each_cons x xs y ys s s1 s2 :
    f x s = (Ok y, s1) ->
    each_in_turn f xs s1 ys s2 ->
    each_in_turn f (x :: xs) s (y :: ys) s2.

(** Structural induction on values, through the lists they nest. *)
Fixpoint value_ind' (P : value -> Prop)
    (Hnone : P VNone) (Hbool : forall b, P (VBool b)) (Hint : forall z, P (VInt z))
    (Hstr : forall s, P (VStr s))
    (Htuple : forall xs, Forall P xs -> P (VTuple xs))
    (Hlist : forall xs, Forall P xs -> P (VList xs))
    (Hset : forall xs, Forall P xs -> P (VSet xs))
    (Hdict : forall items, Forall (fun kv => P kv.2) items -> P (VDict items))
    (Hmapping : forall items, Forall (fun kv => P kv.2) items -> P (VMapping items))
    (Hcallable : forall c, P (VCallable c))
    (Hpartial : forall c args keywords, P (VPartial c args keywords))
    (Hobject : forall id, P (VObject id))
    (v : value) : P v :=
  let rec := value_ind' P Hnone Hbool Hint Hstr Htuple Hlist Hset Hdict Hmapping
               Hcallable Hpartial Hobject in
  match v with
  | VNone => Hnone
  | VBool b => Hbool b
  | VInt z => Hint z
  | VStr s => Hstr s
  | VTuple xs =>
      Htuple xs ((fix go l : Forall P l :=
        match l with [] => List.Forall_nil _ | x :: l' => List.Forall_cons _ x l' (rec x) (go l') end) xs)
  | VList xs =>
      Hlist xs ((fix go l : Forall P l :=
        match l with [] => List.Forall_nil _ | x :: l' => List.Forall_cons _ x l' (rec x) (go l') end) xs)
  | VSet xs =>
      Hset xs ((fix go l : Forall P l :=
        match l with [] => List.Forall_nil _ | x :: l' => List.Forall_cons _ x l' (rec x) (go l') end) xs)
  | VDict items =>
      Hdict items ((fix go l : Forall (fun kv => P kv.2) l :=
        match l with
        | [] => List.Forall_nil _
        | kv :: l' => List.Forall_cons (fun kv => P kv.2) kv l' (rec kv.2) (go l')
        end) items)
  | VMapping items =>
      Hmapping items ((fix go l : Forall (fun kv => P kv.2) l :=
        match l with
        | [] => List.Forall_nil _
        | kv :: l' => List.Forall_cons (fun kv => P kv.2) kv l' (rec kv.2) (go l')
        end) items)
  | VCallable c => Hcallable c
  | VPartial c args keywords => Hpartial c args keywords
  | VObject id => Hobject id
  end.


(** ** A small registry for the examples

    The module [math] holds a two-argument adder [Add] taking an optional
    [offset] keyword; the module [__main__] holds nothing, so a function
    defined locally there cannot be looked up by name.  The world counts
    the calls made so far. *)

Definition Add : callable := Callable (Some "math") (Some "Add") 0.

Definition local_function : callable := Callable (Some "__main__") (Some "<lambda>") 1.

Definition example_import (module : string) (w : nat) : option module_attrs * nat :=
  (if String.eqb module "math" then
     Some (fun name => if String.eqb name "Add" then Some (VCallable Add) else None)
   else if String.eqb module "__main__" then Some (fun _ => None)
   else None,
   w).

Definition example_invoke (c : callable) (args : list value)
    (kwargs : list (string * value)) (w : nat) : result value * nat :=
  (match args with
   | [VInt x; VInt y] =>
       match dict_get kwargs "offset" with
       | None => Ok (VInt (x + y))
       | Some (VInt o) => Ok (VInt (x + y + o))
       | Some _ => Err TypeError
       end
   | _ => Err TypeError
   end,
   S w).

(** ** Counting Spec nodes and events *)

(** [f(d[k])] for a count, [0] when [k] is not a key of [d]. *)
Definition item_count (f : value -> nat) (k : string) : list (string * value) -> nat :=
  fix go (items : list (string * value)) : nat :=
    match items with
    | [] => 0
    | (k', v) :: rest => if String.eqb k k' then f v else go rest
    end.

(** The Spec nodes [recursively_instantiate] meets in a structure: a
    Spec-shaped dict and those in its [args] and [kwargs], and those in
    the elements of tuples, lists and other dicts.  Sets, other mappings
    and scalars hold none it would meet. *)
Fixpoint spec_nodes (v : value) : nat :=
  match v with
  | VTuple xs | VList xs => sum_list_with spec_nodes xs
  | VDict items =>
      if dict_is_spec items then
        1 + item_count spec_nodes "args" items + item_count spec_nodes "kwargs" items
      else sum_list_with (fun kv => spec_nodes kv.2) items
  | _ => 0
  end.

Definition is_import (e : event) : bool :=
  match e with EvImport _ => true | EvCall _ _ _ => false end.

Definition is_call (e : event) : bool :=
  match e with EvCall _ _ _ => true | EvImport _ => false end.

Definition imports (t : list event) : nat := length (List.filter is_import t).

Definition calls (t : list event) : nat := length (List.filter is_call t).

(** [isinstance(v, str)] *)
Definition is_str (v : value) : bool :=
  match v with VStr _ => true | _ => false end.

(** A run of [f] on [x] that imports and calls as often as the measure
    [g] says. *)
Definition counted {W A B} (f : A -> M W B) (g : A -> nat) (x : A) : Prop :=
  forall s y s', f x s = (Ok y, s') ->
  exists t, trace s' = (trace s ++ t)%list /\ imports t = g x /\ calls t = g x.

(** * The robomimic environment adapter (openx/envs/robomimic.py)

    [RobomimicEnv] wraps a simulator.  The simulator, numpy's [clip] and
    the element types of the arrays are taken as given; what is modelled
    is what the adapter itself does with them. *)

Module Robomimic.

Definition OBJECT_STATE_SIZE : nat := 44.

(** [openx.data.utils.StateEncoding], by the members the adapter names.
    The enum is declared outside these files; its members are distinct
    keys. *)
Inductive StateEncoding :=
| EE_POS
| EE_QUAT
| EE_EULER
| GRIPPER
| JOINT_POS
| JOINT_VEL
| MISC.

#[global] Instance StateEncoding_eq_dec : EqDecision StateEncoding.
Proof. solve_decision. Defined.

Inductive failure :=
| MissingKey (k : string)              (* [KeyError] on a string key *)
| MissingEncoding (k : StateEncoding)  (* [KeyError] on a [StateEncoding] key *)
| CannotBroadcast (n : nat).           (* [ValueError]: an array of length [n] does not fit *)

Inductive outcome (A : Type) :=
| Done (a : A)
| Failed (e : failure).
Arguments Done {A} a.
Arguments Failed {A} e.

Definition obind {A B} (m : outcome A) (k : A -> outcome B) : outcome B :=
  match m with
  | Done a => k a
  | Failed e => Failed e
  end.

Notation "'let!' x := m 'in' k" := (obind m (fun x => k))
  (at level 10, x name, m at level 100, k at level 200).

(** [d[k]] in a dict keyed by [StateEncoding] members. *)
Fixpoint enc_get {V} (d : list (StateEncoding * V)) (k : StateEncoding) : option V :=
  match d with
  | [] => None
  | (k', v) :: rest => if decide (k = k') then Some v else enc_get rest k
  end.

(** The observation space [__init__] declares: the shape of each entry of
    ["state"], and those of ["image"], present when images are used. *)
Definition state_space : list (StateEncoding * nat) :=
  [(EE_POS, 3); (EE_QUAT, 4); (GRIPPER, 1); (JOINT_POS, 7); (JOINT_VEL, 7);
   (MISC, OBJECT_STATE_SIZE)].

Definition image_space : list (string * (nat * nat * nat)) :=
  [("agent", (84, 84, 3)); ("wrist", (84, 84, 3))].

Definition observation_space (use_image_obs : bool)
    : list (StateEncoding * nat) * option (list (string * (nat * nat * nat))) :=
  (state_space, if use_image_obs then Some image_space else None).

Section Adapter.
(** What the simulator's vectors hold, what a [float32] array holds, and
    a row of an image. *)
Context {E F Row : Type}.

(** The cast numpy applies when it stores into a [float32] array, and the
    entries of [np.zeros]. *)
Variable to_float32 : E -> F.
Variable zero : F.

(** An entry of the ["state"] dict: a vector of the simulator passed on as
    it is, or the [float32] vector built here. *)
Inductive array :=
| Raw (xs : list E)
| Float32 (xs : list F).

(** [a.shape[0]] *)
Definition size (a : array) : nat :=
  match a with
  | Raw xs => length xs
  | Float32 xs => length xs
  end.

(** The simulator's observation dict: one-dimensional vectors under the
    state keys, images (indexed by row first) under the camera keys. *)
Record sim_obs := SimObs {
  vectors : gmap string (list E);
  images : gmap string (list Row)
}.

(** The dict [_format_obs] returns: its ["state"] entry, and its
    ["image"] entry when it has one. *)
Record observation := Observation {
  obs_state : list (StateEncoding * array);
  obs_image : option (list (string * list Row))
}.

Definition vector (obs : sim_obs) (k : string) : outcome (list E) :=
  match vectors obs !! k with
  | Some xs => Done xs
  | None => Failed (MissingKey k)
  end.

Definition picture (obs : sim_obs) (k : string) : outcome (list Row) :=
  match images obs !! k with
  | Some rows => Done rows
  | None => Failed (MissingKey k)
  end.

(** [obj_state = np.zeros(OBJECT_STATE_SIZE, dtype=np.float32)]
    [obj_state[: x.shape[0]] = x] *)
Definition pad_object_state (x : list E) : outcome (list F) :=
  if (length x <=? OBJECT_STATE_SIZE)%nat then
    Done ((to_float32 <$> x) ++ replicate (OBJECT_STATE_SIZE - length x) zero)%list
  else Failed (CannotBroadcast (length x)).

Definition _format_obs (use_image_obs : bool) (obs : sim_obs) : outcome observation :=
  let! object_state := vector obs "object-state" in
  let! obj_state := pad_object_state object_state in
  let! eef_pos := vector obs "robot0_eef_pos" in
  let! eef_quat := vector obs "robot0_eef_quat" in
  let! gripper_qpos := vector obs "robot0_gripper_qpos" in
  let! joint_pos := vector obs "robot0_joint_pos" in
  let! joint_vel := vector obs "robot0_joint_vel" in
  let state :=
    [(EE_POS, Raw eef_pos); (EE_QUAT, Raw eef_quat); (GRIPPER, Raw (take 1 gripper_qpos));
     (JOINT_POS, Raw joint_pos); (JOINT_VEL, Raw joint_vel); (MISC, Float32 obj_state)] in
  if use_image_obs then
    let! agent := picture obs "agentview_image" in
    let! wrist := picture obs "robot0_eye_in_hand_image" in
    Done (Observation state (Some [("agent", reverse agent); ("wrist", reverse wrist)]))
  else Done (Observation state None).

(** The keys [_format_obs] reads. *)
Definition state_keys : list string :=
  ["object-state"; "robot0_eef_pos"; "robot0_eef_quat"; "robot0_gripper_qpos";
   "robot0_joint_pos"; "robot0_joint_vel"].

Definition image_keys : list string := ["agentview_image"; "robot0_eye_in_hand_image"].

Section Step.
(** The simulator's state, its rewards, the values of its [info] dict and
    the entries of an action. *)
Context {S R I A : Type}.

(** [self.env.action_spec], [np.clip], [self.env.step],
    [self.env._check_success] and the storing of a [bool] in [info]. *)
Variable action_spec : S -> list A * list A.
Variable np_clip : list A -> list A -> list A -> outcome (list A).
Variable env_step : list A -> S -> (sim_obs * R * bool * gmap string I) * S.
Variable _check_success : S -> bool.
Variable of_bool : bool -> I.

(** [action[group][encoding]] *)
Definition action_part (action : list (string * list (StateEncoding * list A)))
    (group : string) (encoding : StateEncoding) : outcome (list A) :=
  match dict_get action group with
  | None => Failed (MissingKey group)
  | Some d =>
      match enc_get d encoding with
      | None => Failed (MissingEncoding encoding)
      | Some xs => Done xs
      end
  end.

Definition step (terminate_early use_image_obs : bool)
    (action : list (string * list (StateEncoding * list A))) (s : S)
    : outcome (observation * R * bool * bool * gmap string I) * S :=
  match
    (let! pos := action_part action "desired_delta" EE_POS in
     let! euler := action_part action "desired_delta" EE_EULER in
     let! gripper := action_part action "desired_absolute" GRIPPER in
     let (low, high) := action_spec s in
     np_clip (pos ++ euler ++ gripper)%list low high)
  with
  | Failed e => (Failed e, s)
  | Done clipped =>
      let '(obs, reward, done, info, s1) := env_step clipped s in
      let success := _check_success s1 in
      let info := <["success" := of_bool success]> info in
      let done := if terminate_early && success then true else done in
      match _format_obs use_image_obs obs with
      | Failed e => (Failed e, s1)
      | Done o => (Done (o, reward, false, done, info), s1)
      end
  end.

(** [reset]: its arguments are ignored. *)
Definition reset (env_reset : S -> sim_obs * S) (use_image_obs : bool) (s : S)
    : outcome (observation * gmap string I) * S :=
  let (obs, s1) := env_reset s in
  match _format_obs use_image_obs obs with
  | Failed e => (Failed e, s1)
  | Done o => (Done (o, ∅), s1)
  end.
End Step.
End Adapter.

(** A simulator for the examples: its state counts the steps taken, its
    object state holds that count, and the task is solved from the second
    step on. *)
Definition example_obs (object_state : list nat) : @sim_obs nat (list nat) :=
  SimObs
    (list_to_map
       [("object-state", object_state); ("robot0_eef_pos", [1; 2; 3]);
        ("robot0_eef_quat", [0; 0; 0; 1]); ("robot0_gripper_qpos", [4; 5]);
        ("robot0_joint_pos", [1; 1; 1; 1; 1; 1; 1]);
        ("robot0_joint_vel", [0; 0; 0; 0; 0; 0; 0])])
    (list_to_map
       [("agentview_image", [[1]; [2]]); ("robot0_eye_in_hand_image", [[3]; [4]])]).

Definition example_action : list (string * list (StateEncoding * list nat)) :=
  [("desired_delta", [(EE_POS, [1; 2; 3]); (EE_EULER, [0; 0; 9])]);
   ("desired_absolute", [(GRIPPER, [1])])].

Definition example_action_spec (s : nat) : list nat * list nat :=
  (replicate 7 0, replicate 7 5).

Definition example_clip (a low high : list nat) : outcome (list nat) :=
  if bool_decide (length a = length low /\ length a = length high) then
    Done (zip_with Nat.min (zip_with Nat.max a low) high)
  else Failed (CannotBroadcast (length a)).

Definition example_env_step (a : list nat) (s : nat)
    : (@sim_obs nat (list nat) * nat * bool * gmap string bool) * nat :=
  (example_obs [s], sum_list a, false, {["steps" := true]}, Datatypes.S s).

Definition example_check_success (s : nat) : bool := (2 <=? s)%nat.
End Robomimic.

(** ** Facts about dictionaries *)

Section DictFacts.
Context {V : Type}.
Implicit Types (items : list (string * V)) (k : string).

Lemma dict_get_Some_elem_of items k v :
  dict_get items k = Some v -> (k, v) ∈ items.
Proof.
  induction items as [|[k' v'] rest IH]; simpl; [done|].
  destruct (String.eqb_spec k k') as [->|Hne].
  - intros [= ->]. apply list_elem_of_here.
  - intros H. apply list_elem_of_further, IH, H.
Qed.

Lemma dict_get_None_iff items k :
  dict_get items k = None <-> k ∉ items.*1.
Proof.
  induction items as [|[k' v'] rest IH]; simpl.
  - split; [intros _ H; inversion H | done].
  - rewrite not_elem_of_cons. destruct (String.eqb_spec k k') as [->|Hne].
    + split; [done | intros [? _]; done].
    + rewrite IH. tauto.
Qed.

Lemma dict_mem_true_iff items k :
  dict_mem items k = true <-> k ∈ items.*1.
Proof.
  unfold dict_mem. destruct (dict_get items k) eqn:E.
  - split; [intros _ | done].
    apply dict_get_Some_elem_of in E. apply list_elem_of_fmap. by exists (k, v).
  - apply dict_get_None_iff in E. split; [done | intros; contradiction].
Qed.


Lemma dict_get_set_eq items k v :
  dict_get (dict_set items k v) k = Some v.
Proof.
  induction items as [|[k' v'] rest IH]; simpl.
  - by rewrite String.eqb_refl.
  - destruct (String.eqb_spec k k') as [->|Hne]; simpl.
    + by rewrite String.eqb_refl.
    + by destruct (String.eqb_spec k k').
Qed.

Lemma dict_get_set_ne items k k' v :
  k <> k' -> dict_get (dict_set items k v) k' = dict_get items k'.
Proof.
  intros Hne. induction items as [|[k0 v0] rest IH]; simpl.
  - by destruct (String.eqb_spec k' k) as [->|].
  - destruct (String.eqb_spec k k0) as [->|Hne0]; simpl.
    + by destruct (String.eqb_spec k' k0) as [->|].
    + by rewrite IH.
Qed.

Lemma dict_set_absent items k v :
  k ∉ items.*1 -> dict_set items k v = (items ++ [(k, v)])%list.
Proof.
  induction items as [|[k' v'] rest IH]; simpl; [done|].
  rewrite not_elem_of_cons. intros [Hne Hnin].
  destruct (String.eqb_spec k k'); [done|]. by rewrite IH.
Qed.

Lemma dict_update_nil items : dict_update items [] = items.
Proof. done. Qed.


(** With distinct keys, the four names and a length of four is the same
    as a key set equal to the four names. *)
Lemma dict_is_spec_keys_differ items :
  NoDup items.*1 -> dict_is_spec items = negb (keys_differ items.*1).
Proof.
  intros Hnd. unfold dict_is_spec, keys_differ.
  assert (Hfour : NoDup spec_keys).
  { apply (bool_decide_unpack _). by vm_compute. }
  destruct (decide (list_to_set items.*1 =@{gset string} list_to_set spec_keys)) as [Heq|Hne].
  - rewrite bool_decide_eq_false_2 by (intros H; by apply H). cbn [negb].
    assert (Hperm : items.*1 ≡ₚ spec_keys).
    { apply NoDup_Permutation; [done..|]. intros x.
      by rewrite <-!(elem_of_list_to_set (C:=gset string)), Heq. }
    apply andb_true_iff. split.
    + apply forallb_forall. intros k Hk. apply dict_mem_true_iff.
      rewrite Hperm. by apply list_elem_of_In.
    + apply Nat.eqb_eq. rewrite <-(length_fmap fst), Hperm. done.
  - rewrite bool_decide_eq_true_2 by done. cbn [negb].
    apply andb_false_iff.
    destruct (forallb (dict_mem items) spec_keys) eqn:Hall; [right|by left].
    apply Nat.eqb_neq. intros Hlen. apply Hne.
    assert (Hsub : spec_keys ⊆+ items.*1).
    { apply NoDup_submseteq; [done|]. intros x Hx.
      apply dict_mem_true_iff. rewrite forallb_forall in Hall.
      by apply Hall, list_elem_of_In. }
    apply submseteq_length_Permutation in Hsub.
    + apply set_eq. intros x. rewrite !elem_of_list_to_set. by rewrite Hsub.
    + rewrite length_fmap, Hlen. done.
Qed.
End DictFacts.

(** ** The Spec-shape predicates *)

Lemma keys_differ_false_iff (ks : list string) :
  keys_differ ks = false <->
  list_to_set ks =@{gset string} {["module"; "name"; "args"; "kwargs"]}.
Proof.
  unfold keys_differ. rewrite bool_decide_eq_false.
  change (list_to_set spec_keys : gset string)
    with ({["module"; "name"; "args"; "kwargs"]} : gset string).
  split; [apply dec_stable | intros H Hne; by apply Hne].
Qed.

Lemma check_keys_keys (spec : value) (ks : list string) :
  keys spec = Ok ks ->
  check_keys spec =
    if keys_differ ks then Err (ValueError ExpectedModuleSpec) else Ok tt.
Proof. unfold check_keys. by intros ->. Qed.

(** C2, as amended: [is_module_spec], which both
    [recursively_instantiate] (the Recursive Instantiator) and [add_kwarg]
    (the Override Engine) call, gives one answer for a value read as a tree
    and for the same value held in the store, and it says Spec exactly of
    the dicts whose key set is the four names.  The key-set check of
    [instantiate] (the Resolver) agrees with it on every dict and on every
    value that is not a mapping; mappings that are not dicts are left
    out. *)
Theorem spec_shape_predicates_agree (v : value) (h : Store.heap) (d : Store.hval) :
  distinct_keys v ->
  store_shape_of h d = shape_of v ->
  Store.is_module_spec h d = is_module_spec v /\
  ((forall ks, shape_of v <> MappingShape ks) ->
     (check_keys v = Ok tt <-> is_module_spec v = true)) /\
  (is_module_spec v = true <->
     exists items, v = VDict items /\
       list_to_set items.*1 =@{gset string} {["module"; "name"; "args"; "kwargs"]}).
Proof.
  intros Hnd Hshape.
  assert (Hstore : Store.is_module_spec h d = is_module_spec v).
  { unfold store_shape_of, Store.is_module_spec in *.
    destruct d as [| | | |l]; [by destruct v..|].
    destruct (h !! l) as [[hitems|hitems| | |]|]; try by destruct v.
    destruct v; try done. injection Hshape as Hkeys. cbn [is_module_spec distinct_keys] in *.
    rewrite (dict_is_spec_keys_differ items Hnd), <-Hkeys.
    rewrite <-Hkeys in Hnd. by rewrite (dict_is_spec_keys_differ hitems Hnd). }
  split_and!; [done| |].
  - intros Hmapping.
    destruct v as [| | | | | | |items|items| | |]; try done.
    + rewrite (check_keys_keys _ items.*1) by done. cbn [is_module_spec distinct_keys] in *.
      rewrite (dict_is_spec_keys_differ items Hnd). by destruct (keys_differ items.*1).
    + by destruct (Hmapping items.*1).
  - destruct v as [| | | | | | |items|items| | |];
      try (split; [done|by intros (? & ? & _)]).
    cbn [is_module_spec distinct_keys] in *.
    rewrite (dict_is_spec_keys_differ items Hnd), negb_true_iff, keys_differ_false_iff.
    split; [intros H; by exists items|by intros (? & [= <-] & H)].
Qed.

Lemma spec_shape_predicates_agree_witness :
  let v := ModuleSpec (VStr "ns") (VStr "Name") (VTuple []) (VDict []) in
  let h : Store.heap :=
    {[ 1 := Store.ODict [("module", Store.HStr "ns"); ("name", Store.HStr "Name");
                         ("args", Store.HRef 2); ("kwargs", Store.HRef 3)] ]} in
  Store.is_module_spec h (Store.HRef 1) = is_module_spec v /\
  ((forall ks, shape_of v <> MappingShape ks) ->
     (check_keys v = Ok tt <-> is_module_spec v = true)) /\
  (is_module_spec v = true <->
     exists items, v = VDict items /\
       list_to_set items.*1 =@{gset string} {["module"; "name"; "args"; "kwargs"]}).
Proof.
  intros v h. apply (spec_shape_predicates_agree v h (Store.HRef 1)).
  - apply (bool_decide_unpack _). by vm_compute.
  - reflexivity.
Defined.

(** ** The state-and-error monad *)

Section MonadFacts.
Context {W : Type}.

Lemma bind_Ok {A B} (m : M W A) (k : A -> M W B) s a s1 :
  m s = (Ok a, s1) -> bind m k s = k a s1.
Proof. unfold bind. by intros ->. Qed.

Lemma bind_Err {A B} (m : M W A) (k : A -> M W B) s e s1 :
  m s = (Err e, s1) -> bind m k s = (Err e, s1).
Proof. unfold bind. by intros ->. Qed.

Lemma bind_Ok_inv {A B} (m : M W A) (k : A -> M W B) s b s2 :
  bind m k s = (Ok b, s2) ->
  exists a s1, m s = (Ok a, s1) /\ k a s1 = (Ok b, s2).
Proof.
  unfold bind. destruct (m s) as [[a|e] s1]; [|done]. intros H. by exists a, s1.
Qed.

Lemma lift_Ok_inv {A} (r : result A) (s : state W) a s1 :
  lift r s = (Ok a, s1) -> r = Ok a /\ s1 = s.
Proof. unfold lift. by intros [= -> ->]. Qed.

Lemma mapM_each_in_turn {A B} (f : A -> M W B) xs s ys s' :
  mapM f xs s = (Ok ys, s') <-> each_in_turn f xs s ys s'.
Proof.
  split.
  - revert s ys. induction xs as [|x xs IH]; intros s ys; simpl.
    + intros [= <- <-]. constructor.
    + intros (y & s1 & Hx & H)%bind_Ok_inv.
      apply bind_Ok_inv in H as (ys' & s2 & Hxs & [= <- <-]).
      econstructor; [done|]. by apply IH.
  - induction 1 as [|x xs y ys s s1 s2 Hx _ IH]; simpl; [done|].
    rewrite (bind_Ok _ _ _ _ _ Hx), (bind_Ok _ _ _ _ _ IH). done.
Qed.
End MonadFacts.

(** ** The Resolver: [instantiate] *)

Section ResolverFacts.
Context {W : Type}.
Variable import_module : string -> W -> option module_attrs * W.
Variable invoke : callable -> list value -> list (string * value) -> W -> result value * W.

Lemma unpack_iter_Err x e : unpack_iter x = Err e -> e = TypeError.
Proof. destruct x; simpl; congruence. Qed.

Lemma unpack_mapping_Err x e : unpack_mapping x = Err e -> e = TypeError.
Proof. destruct x; simpl; congruence. Qed.

Lemma instantiate_not_None (spec : value) :
  spec <> VNone ->
  instantiate import_module spec =
    (_ <- lift (check_keys spec) ;;
     module <- lift (getitem spec "module") ;;
     name <- lift (getitem spec "name") ;;
     cls <- _import_from_string import_module module name ;;
     a <- lift (getitem spec "args") ;;
     args <- lift (unpack_iter a) ;;
     k <- lift (getitem spec "kwargs") ;;
     kwargs <- lift (unpack_mapping k) ;;
     lift (partial cls args kwargs)).
Proof. by destruct spec. Qed.

Lemma getitem_Err d k e : getitem d k = Err e -> e = KeyError k \/ e = TypeError.
Proof.
  destruct d; simpl; try (intros [= <-]; by right).
  all: destruct (dict_get items k); intros [= <-]; by left.
Qed.

(** C8: a mapping whose key set is not exactly the four names is refused
    with the "Expected ModuleSpec" error and the state is left as it was: no
    module has been imported.  A mapping with exactly the four keys is never
    refused with that error. *)
Theorem instantiate_checks_shape_first (spec : value) (ks : list string) (s : state W) :
  keys spec = Ok ks ->
  (list_to_set ks ≠@{gset string} {["module"; "name"; "args"; "kwargs"]} ->
     instantiate import_module spec s = (Err (ValueError ExpectedModuleSpec), s)) /\
  (list_to_set ks =@{gset string} {["module"; "name"; "args"; "kwargs"]} ->
     (instantiate import_module spec s).1 <> Err (ValueError ExpectedModuleSpec)).
Proof.
  intros Hks. rewrite instantiate_not_None by (by destruct spec).
  rewrite (check_keys_keys _ _ Hks). split; intros Hkeys.
  - destruct (keys_differ ks) eqn:E; [done|].
    by apply keys_differ_false_iff in E.
  - apply keys_differ_false_iff in Hkeys. rewrite Hkeys.
    unfold bind, lift, _import_from_string, do_import, raise, ret, partial, bind.
    repeat case_match; simplify_eq/=; try done.
    all: repeat match goal with
         | H : unpack_iter _ = Err _ |- _ => apply unpack_iter_Err in H as ->
         | H : unpack_mapping _ = Err _ |- _ => apply unpack_mapping_Err in H as ->
         | H : getitem _ _ = Err _ |- _ => apply getitem_Err in H as [-> | ->]
         end; done.
Qed.

Lemma instantiate_ModuleSpec module name args kwargs :
  instantiate import_module (ModuleSpec module name args kwargs) =
    (cls <- _import_from_string import_module module name ;;
     args' <- lift (unpack_iter args) ;;
     kwargs' <- lift (unpack_mapping kwargs) ;;
     lift (partial cls args' kwargs')).
Proof. reflexivity. Qed.

Lemma _import_from_string_Ok_inv module name cls s s1 :
  _import_from_string import_module module name s = (Ok cls, s1) ->
  exists m n attrs w,
    module = VStr m /\ name = VStr n /\
    import_module m (world s) = (Some attrs, w) /\ attrs n = Some cls /\
    s1 = State w (trace s ++ [EvImport m]).
Proof.
  unfold _import_from_string, bind, do_import, raise, ret.
  intros H. repeat case_match; simplify_eq. by eexists _, _, _, _.
Qed.

Lemma _import_from_string_resolves m n attrs cls s w :
  import_module m (world s) = (Some attrs, w) -> attrs n = Some cls ->
  _import_from_string import_module (VStr m) (VStr n) s =
    (Ok cls, State w (trace s ++ [EvImport m])).
Proof.
  intros Himp Hattr. unfold _import_from_string, bind, do_import, ret.
  by rewrite Himp, Hattr.
Qed.

(** C1, as amended: when the module named by [c.__module__] imports and
    its attribute [c.__name__] is [c] itself, [instantiate(create(c, args,
    kwargs))] returns a binding, having imported that module and nothing
    else, and calling the binding with no further argument is calling
    [c(args, kwargs)]. *)
Theorem instantiate_create_calls_constructible
    (c : callable) (m n : string) (attrs : module_attrs)
    (args : list value) (kwargs : list (string * value)) (s : state W) (w : W) :
  co_module c = Some m ->
  co_name c = Some n ->
  import_module m (world s) = (Some attrs, w) ->
  attrs n = Some (VCallable c) ->
  exists binding,
    (spec <- lift (create (VCallable c) args kwargs) ;; instantiate import_module spec) s
      = (Ok binding, State w (trace s ++ [EvImport m])) /\
    forall s1, call invoke binding [] [] s1 = call invoke (VCallable c) args kwargs s1.
Proof.
  intros Hm Hn Himp Hattr. exists (VPartial c args kwargs). split.
  - unfold create, _infer_full_name. rewrite Hm, Hn. cbn [rbind].
    unfold bind at 1. cbn [lift]. rewrite instantiate_ModuleSpec.
    rewrite (bind_Ok _ _ _ _ _ (_import_from_string_resolves _ _ _ _ _ _ Himp Hattr)).
    reflexivity.
  - intros s1. cbn [call]. by rewrite app_nil_r.
Qed.


End ResolverFacts.

Lemma instantiate_checks_shape_first_witness :
  instantiate example_import
    (VDict [("module", VStr "math"); ("name", VStr "Add"); ("args", VList [])])
    (State 0 []) = (Err (ValueError ExpectedModuleSpec), State 0 []) /\
  (instantiate example_import
     (VDict [("module", VStr "math"); ("name", VStr "Add"); ("args", VList []);
             ("kwargs", VDict [])])
     (State 0 [])).1 <> Err (ValueError ExpectedModuleSpec).
Proof.
  split.
  - apply (instantiate_checks_shape_first example_import
             (VDict [("module", VStr "math"); ("name", VStr "Add"); ("args", VList [])])
             ["module"; "name"; "args"] (State 0 []) eq_refl).
    apply (bool_decide_unpack _). by vm_compute.
  - apply (instantiate_checks_shape_first example_import
             (VDict [("module", VStr "math"); ("name", VStr "Add"); ("args", VList []);
                     ("kwargs", VDict [])])
             ["module"; "name"; "args"; "kwargs"] (State 0 []) eq_refl).
    apply (bool_decide_unpack _). by vm_compute.
Defined.

(** ** The Recursive Instantiator: [recursively_instantiate] *)

Section InstantiatorFacts.
Context {W : Type}.
Variable import_module : string -> W -> option module_attrs * W.
Variable invoke : callable -> list value -> list (string * value) -> W -> result value * W.

#[local] Abbreviation rec := (recursively_instantiate import_module invoke).

Lemma rec_tuple xs : rec (VTuple xs) = (xs' <- mapM rec xs ;; ret (VTuple xs')).
Proof. done. Qed.

Lemma rec_list xs : rec (VList xs) = (xs' <- mapM rec xs ;; ret (VList xs')).
Proof. done. Qed.

Lemma rec_dict items :
  dict_is_spec items = false ->
  rec (VDict items) =
    (items' <- mapM (fun kv => v <- rec kv.2 ;; ret (kv.1, v)) items ;; ret (VDict items')).
Proof. intros H. cbn [recursively_instantiate]. by rewrite H. Qed.

Lemma with_item_get {A B} (f : A -> M W B) k items v :
  dict_get items k = Some v -> with_item f k items = f v.
Proof.
  induction items as [|[k' v'] rest IH]; simpl; [done|].
  destruct (String.eqb k k'); [by intros [= ->] | done].
Qed.

Lemma rec_spec items module name a kw :
  dict_is_spec items = true ->
  dict_get items "module" = Some module ->
  dict_get items "name" = Some name ->
  dict_get items "args" = Some a ->
  dict_get items "kwargs" = Some kw ->
  rec (VDict items) =
    (args <- rec a ;;
     kwargs <- rec kw ;;
     binding <- instantiate import_module (ModuleSpec module name args kwargs) ;;
     call invoke binding [] []).
Proof.
  intros H Hm Hn Ha Hkw. cbn [recursively_instantiate getitem]. rewrite H, Hm, Hn.
  by rewrite (with_item_get _ _ _ _ Ha), (with_item_get _ _ _ _ Hkw).
Qed.

Lemma dict_is_spec_get {V} (items : list (string * V)) :
  dict_is_spec items = true ->
  exists module name a kw,
    dict_get items "module" = Some module /\ dict_get items "name" = Some name /\
    dict_get items "args" = Some a /\ dict_get items "kwargs" = Some kw.
Proof.
  unfold dict_is_spec, spec_keys, dict_mem. cbn [forallb]. intros H.
  repeat (apply andb_true_iff in H as [? H]).
  repeat case_match; try done. by eexists _, _, _, _.
Qed.

Lemma mapM_id {A} (f : A -> M W A) xs s :
  Forall (fun x => forall s, f x s = (Ok x, s)) xs -> mapM f xs s = (Ok xs, s).
Proof.
  intros H. revert s. induction H as [|x xs Hx _ IH]; intros s; simpl; [done|].
  by rewrite (bind_Ok _ _ _ _ _ (Hx s)), (bind_Ok _ _ _ _ _ (IH s)).
Qed.

(** C9: on a structure of tuples, lists, sets, mappings and scalars with
    no Spec node anywhere, [recursively_instantiate] returns a structure equal
    to its argument, and neither imports nor calls anything. *)
Theorem recursively_instantiate_spec_free (v : value) (s : state W) :
  spec_free v = true -> rec v s = (Ok v, s).
Proof.
  revert s. induction v as [| | |str|xs IH|xs IH|xs IH|items IH|items IH| | |] using value_ind';
    intros s Hfree; try done.
  - rewrite rec_tuple, (bind_Ok _ _ s xs s); [done|].
    apply mapM_id. cbn [spec_free] in Hfree. rewrite forallb_forall in Hfree.
    rewrite Forall_forall in IH |- *. intros x Hx s0.
    apply IH; [done|]. by apply Hfree, list_elem_of_In.
  - rewrite rec_list, (bind_Ok _ _ s xs s); [done|].
    apply mapM_id. cbn [spec_free] in Hfree. rewrite forallb_forall in Hfree.
    rewrite Forall_forall in IH |- *. intros x Hx s0.
    apply IH; [done|]. by apply Hfree, list_elem_of_In.
  - cbn [spec_free] in Hfree. apply andb_true_iff in Hfree as [Hshape Hfree].
    apply negb_true_iff in Hshape. rewrite forallb_forall in Hfree.
    rewrite (rec_dict _ Hshape), (bind_Ok _ _ s items s); [done|].
    apply mapM_id. rewrite Forall_forall in IH |- *. intros [k x] Hx s0.
    rewrite (bind_Ok _ _ s0 x s0); [done|].
    apply (IH _ Hx). by apply (Hfree (k, x)), list_elem_of_In.
Qed.
End InstantiatorFacts.

Lemma recursively_instantiate_spec_free_witness :
  recursively_instantiate (W:=unit) (fun _ w => (None, w)) (fun _ _ _ w => (Err TypeError, w))
    (VDict [("lr", VInt 3); ("layers", VList [VInt 1; VTuple [VStr "a"; VSet [VNone]]])])
    (State tt [])
  = (Ok (VDict [("lr", VInt 3); ("layers", VList [VInt 1; VTuple [VStr "a"; VSet [VNone]]])]),
     State tt []).
Proof. apply recursively_instantiate_spec_free. reflexivity. Defined.

Section ContainerFacts.
Context {W : Type}.
Variable import_module : string -> W -> option module_attrs * W.
Variable invoke : callable -> list value -> list (string * value) -> W -> result value * W.

#[local] Abbreviation rec := (recursively_instantiate import_module invoke).

Lemma each_in_turn_items (f : value -> M W value) (items items' : list (string * value)) s s' :
  each_in_turn (fun kv => v <- f kv.2 ;; ret (kv.1, v)) items s items' s' <->
  exists vs, each_in_turn f items.*2 s vs s' /\ items' = zip items.*1 vs.
Proof.
  split.
  - induction 1 as [|[k x] items [k' y] items' s s1 s2 Hx _ (vs & IH & ->)].
    + exists []. split; [constructor | done].
    + apply bind_Ok_inv in Hx as (v & s0 & Hx & [= <- <- <-]).
      exists (v :: vs). split; [by econstructor | done].
  - intros (vs & H & ->). remember (items.*2) as xs eqn:E. revert items E.
    induction H as [|x xs y ys s s1 s2 Hx _ IH]; intros [|[k x'] items] [=]; subst.
    + constructor.
    + simpl. econstructor; [|by apply IH].
      by rewrite (bind_Ok _ _ _ _ _ Hx).
Qed.

(** C4, as amended: a tuple, a list and a dict that is not a Spec are
    rebuilt with the same shape, a dict under the same keys, from their
    elements run through [recursively_instantiate] one after the other; a
    set is returned as it is, its elements unvisited, and so is a mapping
    that is not a dict. *)
Theorem containers_are_rebuilt
    (xs : list value) (items : list (string * value)) (s s' : state W) (r : value) :
  (rec (VTuple xs) s = (Ok r, s') <->
     exists ys, r = VTuple ys /\ each_in_turn rec xs s ys s') /\
  (rec (VList xs) s = (Ok r, s') <->
     exists ys, r = VList ys /\ each_in_turn rec xs s ys s') /\
  (dict_is_spec items = false ->
     rec (VDict items) s = (Ok r, s') <->
       exists vs, r = VDict (zip items.*1 vs) /\ each_in_turn rec items.*2 s vs s') /\
  rec (VSet xs) s = (Ok (VSet xs), s) /\
  rec (VMapping items) s = (Ok (VMapping items), s).
Proof.
  split_and!; [| |intros Hshape|done|done].
  - rewrite rec_tuple. split.
    + intros (ys & s1 & H & [= <- <-])%bind_Ok_inv. exists ys.
      split; [done|]. by apply mapM_each_in_turn.
    + intros (ys & -> & H). apply mapM_each_in_turn in H.
      by rewrite (bind_Ok _ _ _ _ _ H).
  - rewrite rec_list. split.
    + intros (ys & s1 & H & [= <- <-])%bind_Ok_inv. exists ys.
      split; [done|]. by apply mapM_each_in_turn.
    + intros (ys & -> & H). apply mapM_each_in_turn in H.
      by rewrite (bind_Ok _ _ _ _ _ H).
  - rewrite (rec_dict _ _ _ Hshape). split.
    + intros (items' & s1 & H & [= <- <-])%bind_Ok_inv.
      apply mapM_each_in_turn, each_in_turn_items in H as (vs & H & ->). by exists vs.
    + intros (vs & -> & H).
      assert (each_in_turn (fun kv => v <- rec kv.2 ;; ret (kv.1, v))
                items s (zip items.*1 vs) s') as H'.
      { apply each_in_turn_items. by exists vs. }
      apply mapM_each_in_turn in H'. by rewrite (bind_Ok _ _ _ _ _ H').
Qed.
End ContainerFacts.

Lemma containers_are_rebuilt_witness :
  recursively_instantiate example_import example_invoke
    (VDict [("lr", VInt 1);
            ("sum", ModuleSpec (VStr "math") (VStr "Add") (VTuple [VInt 2; VInt 3]) (VDict []))])
    (State 0 [])
  = (Ok (VDict [("lr", VInt 1); ("sum", VInt 5)]),
     State 1 [EvImport "math"; EvCall Add [VInt 2; VInt 3] []]).
Proof.
  apply (containers_are_rebuilt example_import example_invoke []
           [("lr", VInt 1);
            ("sum", ModuleSpec (VStr "math") (VStr "Add") (VTuple [VInt 2; VInt 3]) (VDict []))]).
  - reflexivity.
  - exists [VInt 1; VInt 5]. split; [reflexivity|].
    repeat econstructor.
Defined.

(** C4, as first stated, fails on sets: a Spec inside a set (an instance
    of a hashable subclass of [dict], as a member of a set has to be) is
    neither resolved nor called, where the same Spec inside a list is. *)
Lemma set_elements_not_materialized :
  let spec := ModuleSpec (VStr "math") (VStr "Add") (VTuple [VInt 2; VInt 3]) (VDict []) in
  recursively_instantiate example_import example_invoke (VSet [spec]) (State 0 [])
    = (Ok (VSet [spec]), State 0 []) /\
  recursively_instantiate example_import example_invoke (VList [spec]) (State 0 [])
    = (Ok (VList [VInt 5]), State 1 [EvImport "math"; EvCall Add [VInt 2; VInt 3] []]) /\
  recursively_instantiate example_import example_invoke (VSet [spec]) (State 0 [])
    <> (xs' <- mapM (recursively_instantiate example_import example_invoke) [spec] ;;
        ret (VSet xs')) (State 0 []).
Proof. split_and!; [reflexivity | reflexivity | discriminate]. Qed.

(** ** The order of imports and calls *)

Section TraceFacts.
Context {W : Type}.
Variable import_module : string -> W -> option module_attrs * W.
Variable invoke : callable -> list value -> list (string * value) -> W -> result value * W.

#[local] Abbreviation rec := (recursively_instantiate import_module invoke).













(** The run of a Spec node, step by step. *)
Lemma rec_spec_inv items s r s' :
  dict_is_spec items = true ->
  rec (VDict items) s = (Ok r, s') ->
  exists module name a kw args kwargs s1 s2 binding s3,
    dict_get items "module" = Some module /\ dict_get items "name" = Some name /\
    dict_get items "args" = Some a /\ dict_get items "kwargs" = Some kw /\
    rec a s = (Ok args, s1) /\
    rec kw s1 = (Ok kwargs, s2) /\
    instantiate import_module (ModuleSpec module name args kwargs) s2 = (Ok binding, s3) /\
    call invoke binding [] [] s3 = (Ok r, s').
Proof.
  intros Hshape H.
  destruct (dict_is_spec_get _ Hshape) as (module & name & a & kw & Hm & Hn & Ha & Hkw).
  rewrite (rec_spec _ _ _ _ _ _ _ Hshape Hm Hn Ha Hkw) in H.
  apply bind_Ok_inv in H as (args & s1 & Hargs & H).
  apply bind_Ok_inv in H as (kwargs & s2 & Hkwargs & H).
  apply bind_Ok_inv in H as (binding & s3 & Hbinding & H).
  by exists module, name, a, kw, args, kwargs, s1, s2, binding, s3.
Qed.


(** Resolving a Spec imports its module, and calling the binding with no
    argument calls the constructible once: two events, in this order. *)
Lemma resolve_then_call module name args kwargs s2 binding s3 r s' :
  instantiate import_module (ModuleSpec module name args kwargs) s2 = (Ok binding, s3) ->
  call invoke binding [] [] s3 = (Ok r, s') ->
  exists m c ao ko,
    module = VStr m /\
    invoke c ao ko (world s3) = (Ok r, world s') /\
    trace s' = (trace s2 ++ [EvImport m; EvCall c ao ko])%list.
Proof.
  rewrite instantiate_ModuleSpec. intros H Hcall.
  apply bind_Ok_inv in H as (cls & s0 & Hcls & H).
  apply _import_from_string_Ok_inv in Hcls as (m & n & attrs & w & -> & -> & _ & _ & ->).
  apply bind_Ok_inv in H as (args' & s0 & [_ ->]%lift_Ok_inv & H).
  apply bind_Ok_inv in H as (kwargs' & s0 & [_ ->]%lift_Ok_inv & H).
  apply lift_Ok_inv in H as [Hpartial ->].
  assert (exists c ao ko, binding = VPartial c ao ko) as (c & ao & ko & ->).
  { destruct cls; simplify_eq/=; by eexists _, _, _. }
  cbn [call] in Hcall. rewrite app_nil_r, dict_update_nil in Hcall.
  unfold do_call in Hcall. cbn [world trace] in *.
  destruct (invoke c ao ko w) as [r' w'] eqn:E. injection Hcall as -> <-.
  exists m, c, ao, ko. cbn [world trace]. split_and!; [done..|].
  by rewrite <-app_assoc.
Qed.

End TraceFacts.


(** ** The Override Engine: [add_kwarg] *)

Section StoreFacts.
Import Store.
Implicit Types (h : heap) (d target : hval) (l : loc) (o : hobj)
  (items : list (string * hval)).

Lemma locates_fold h d names target :
  locates h d names target ->
  fold_left (fun acc key_part => let? d := acc in descend h d key_part) names (Ok d)
    = Ok target.
Proof.
  induction 1 as [d|d kw name next rest target Hspec Hkw Hnext _ IH
                 |d name next rest target Hspec Hnext _ IH]; [done| |].
  - cbn [fold_left rbind]. unfold descend at 2, enter_kwargs.
    rewrite Hspec, Hkw. cbn [rbind]. by rewrite Hnext.
  - cbn [fold_left rbind]. unfold descend at 2, enter_kwargs.
    rewrite Hspec. cbn [rbind]. by rewrite Hnext.
Qed.

Lemma holder_enter_kwargs h target l :
  holder h target l -> enter_kwargs h target = Ok (HRef l).
Proof. unfold enter_kwargs. by intros [d l' -> ->|l' ->]. Qed.

Lemma setitem_mapping h l o items k v :
  h !! l = Some o ->
  mapping_items o = Some items ->
  setitem h (HRef l) k v = Ok (<[l := set_mapping_items o (dict_set items k v)]> h).
Proof. intros Hl Ho. cbn [setitem]. rewrite Hl. by destruct o; simplify_eq/=. Qed.

Lemma getitem_mapping h l o items k :
  h !! l = Some o ->
  mapping_items o = Some items ->
  getitem h (HRef l) k =
    match dict_get items k with Some v => Ok v | None => Err (KeyError k) end.
Proof. intros Hl Ho. cbn [getitem]. rewrite Hl. by destruct o; simplify_eq/=. Qed.

Lemma mapping_items_set o items items' :
  mapping_items o = Some items ->
  mapping_items (set_mapping_items o items') = Some items'.
Proof. by destruct o. Qed.

Lemma add_kwarg_located h root k names name v target l o items :
  split "." k = (names ++ [name])%list ->
  locates h root names target ->
  holder h target l ->
  h !! l = Some o ->
  mapping_items o = Some items ->
  add_kwarg h root k v = Ok (<[l := set_mapping_items o (dict_set items name v)]> h).
Proof.
  intros Hsplit Hloc Hholder Hl Ho. unfold add_kwarg.
  rewrite Hsplit, removelast_last, last_last, (locates_fold _ _ _ _ Hloc). cbn [rbind].
  rewrite (holder_enter_kwargs _ _ _ Hholder). cbn [rbind].
  by apply setitem_mapping.
Qed.

(** C6: when the names of the path before the last lead from the root to
    a node, going through the [kwargs] of every Spec node met and through
    the node itself otherwise, and the last name is to be set in a mapping
    found the same way, [add_kwarg] succeeds and changes the store at that
    mapping alone, where the last name now holds the value. *)
Theorem add_kwarg_sets_value_at_path
    h (root : hval) (k : string) (names : list string) (name : string)
    (v target : hval) l o items :
  split "." k = (names ++ [name])%list ->
  locates h root names target ->
  holder h target l ->
  h !! l = Some o ->
  mapping_items o = Some items ->
  exists h',
    add_kwarg h root k v = Ok h' /\
    h' = <[l := set_mapping_items o (dict_set items name v)]> h /\
    getitem h' (HRef l) name = Ok v.
Proof.
  intros Hsplit Hloc Hholder Hl Ho. eexists. split_and!; [|done|].
  - by eapply add_kwarg_located.
  - erewrite getitem_mapping;
      [|apply lookup_insert_eq|by eapply mapping_items_set].
    by rewrite dict_get_set_eq.
Qed.

(** C10: when the path resolves and its last name is not yet a key of the
    mapping reached, [add_kwarg] does not fail: that mapping gets the name
    as a new last item bound to the value, its other items are kept as
    they were, and every other object of the store is unchanged. *)
Theorem add_kwarg_inserts_absent_key
    h (root : hval) (k : string) (names : list string) (name : string)
    (v target : hval) l o items :
  split "." k = (names ++ [name])%list ->
  locates h root names target ->
  holder h target l ->
  h !! l = Some o ->
  mapping_items o = Some items ->
  name ∉ items.*1 ->
  exists h',
    add_kwarg h root k v = Ok h' /\
    h' !! l = Some (set_mapping_items o (items ++ [(name, v)])) /\
    (forall l', l' <> l -> h' !! l' = h !! l') /\
    (forall k', k' <> name -> getitem h' (HRef l) k' = getitem h (HRef l) k').
Proof.
  intros Hsplit Hloc Hholder Hl Ho Habsent. eexists. split_and!.
  - by eapply add_kwarg_located.
  - by rewrite lookup_insert_eq, dict_set_absent.
  - intros l' Hne. by rewrite lookup_insert_ne.
  - intros k' Hne.
    erewrite (getitem_mapping (<[l:=_]> h));
      [|apply lookup_insert_eq|by eapply mapping_items_set].
    erewrite (getitem_mapping h) by done. by rewrite dict_get_set_ne.
Qed.
End StoreFacts.

Lemma example_store_locates :
  Store.locates Store.example_store (Store.HRef 1) ["a"; "b"] (Store.HRef 4) /\
  Store.holder Store.example_store (Store.HRef 4) 5.
Proof.
  split.
  - eapply Store.locates_plain; [reflexivity..|].
    eapply Store.locates_spec; [reflexivity..|]. apply Store.locates_here.
  - by apply Store.holder_spec.
Qed.

Lemma add_kwarg_sets_value_at_path_witness :
  exists h',
    Store.add_kwarg Store.example_store (Store.HRef 1) "a.b.x" (Store.HInt 5) = Ok h' /\
    h' = <[5 := Store.ODict [("x", Store.HInt 5)]]> Store.example_store /\
    Store.getitem h' (Store.HRef 5) "x" = Ok (Store.HInt 5).
Proof.
  apply (add_kwarg_sets_value_at_path Store.example_store (Store.HRef 1) "a.b.x"
           ["a"; "b"] "x" (Store.HInt 5) (Store.HRef 4) 5
           (Store.ODict [("x", Store.HInt 1)]) [("x", Store.HInt 1)]).
  - reflexivity.
  - apply example_store_locates.
  - apply example_store_locates.
  - reflexivity.
  - reflexivity.
Defined.

Lemma add_kwarg_inserts_absent_key_witness :
  exists h',
    Store.add_kwarg Store.example_store (Store.HRef 1) "a.b.c" (Store.HInt 5) = Ok h' /\
    h' !! 5 = Some (Store.ODict [("x", Store.HInt 1); ("c", Store.HInt 5)]) /\
    (forall l', l' <> 5 -> h' !! l' = Store.example_store !! l') /\
    (forall k', k' <> "c" ->
       Store.getitem h' (Store.HRef 5) k' = Store.getitem Store.example_store (Store.HRef 5) k').
Proof.
  apply (add_kwarg_inserts_absent_key Store.example_store (Store.HRef 1) "a.b.c"
           ["a"; "b"] "c" (Store.HInt 5) (Store.HRef 4) 5
           (Store.ODict [("x", Store.HInt 1)]) [("x", Store.HInt 1)]).
  - reflexivity.
  - apply example_store_locates.
  - apply example_store_locates.
  - reflexivity.
  - reflexivity.
  - apply (bool_decide_unpack _). by vm_compute.
Defined.

(** ** Examples of the Resolver *)

Lemma instantiate_create_calls_constructible_witness :
  exists binding,
    (spec <- lift (create (VCallable Add) [VInt 2; VInt 3] [("offset", VInt 1)]) ;;
     instantiate example_import spec) (State 0 [])
      = (Ok binding, State 0 [EvImport "math"]) /\
    forall s1, call example_invoke binding [] [] s1
               = call example_invoke (VCallable Add) [VInt 2; VInt 3] [("offset", VInt 1)] s1.
Proof.
  apply (instantiate_create_calls_constructible example_import example_invoke Add
           "math" "Add"
           (fun name => if String.eqb name "Add" then Some (VCallable Add) else None)
           [VInt 2; VInt 3] [("offset", VInt 1)] (State 0 []) 0); reflexivity.
Defined.

(** C1, as first stated, fails for a constructible that has a
    [__module__] and a [__name__] under which the module does not hold
    it, such as a function defined locally: [create] infers the names,
    [instantiate] fails to look them up, and no binding is returned, where
    the direct call returns a value. *)
Lemma instantiate_create_unresolvable :
  co_module local_function = Some "__main__" /\
  co_name local_function = Some "<lambda>" /\
  (spec <- lift (create (VCallable local_function) [VInt 2; VInt 3] [("offset", VInt 1)]) ;;
   binding <- instantiate example_import spec ;;
   call example_invoke binding [] []) (State 0 [])
    = (Err (ValueError CouldNotImport), State 0 [EvImport "__main__"]) /\
  call example_invoke (VCallable local_function) [VInt 2; VInt 3] [("offset", VInt 1)]
    (State 0 [])
    = (Ok (VInt 6),
       State 1 [EvCall local_function [VInt 2; VInt 3] [("offset", VInt 1)]]).
Proof. split_and!; reflexivity. Qed.


(** ** The Debug Renderer: [to_string] *)

(** C3 (the code departs from it): [to_string] passes the stored [args]
    to [str.join] as they are, which accepts strings only, so rendering
    [create("ns:Name", 1, 2, x=3)] raises [TypeError] whatever [str] does;
    the [kwargs] are formatted one by one and would not. *)
Theorem to_string_rejects_int_args (py_str : value -> string) :
  create (VStr "ns:Name") [VInt 1; VInt 2] [("x", VInt 3)]
    = Ok (ModuleSpec (VStr "ns") (VStr "Name") (VTuple [VInt 1; VInt 2])
            (VDict [("x", VInt 3)])) /\
  to_string py_str
    (ModuleSpec (VStr "ns") (VStr "Name") (VTuple [VInt 1; VInt 2]) (VDict [("x", VInt 3)]))
    = Err TypeError.
Proof. split; reflexivity. Qed.

(** C2, as first stated, fails on a mapping that is not a dict: with
    exactly the four keys it passes the key-set check of [instantiate],
    which resolves it to a binding, while [is_module_spec] says it is no
    Spec and [recursively_instantiate] returns it untouched. *)
Lemma non_dict_mapping_splits_predicates :
  let m := VMapping [("module", VStr "math"); ("name", VStr "Add");
                     ("args", VTuple [VInt 2; VInt 3]); ("kwargs", VDict [])] in
  check_keys m = Ok tt /\
  is_module_spec m = false /\
  instantiate example_import m (State 0 [])
    = (Ok (VPartial Add [VInt 2; VInt 3] []), State 0 [EvImport "math"]) /\
  recursively_instantiate example_import example_invoke m (State 0 []) = (Ok m, State 0 []).
Proof. split_and!; reflexivity. Qed.

(** ** Further properties *)

Lemma split_no_sep (c : ascii) (s : string) :
  count c s = 0 -> split c s = [s].
Proof.
  induction s as [|a s IH]; simpl; [done|].
  destruct (Ascii.eqb a c); [done|]. intros H. by rewrite IH.
Qed.

Lemma split_one_sep (c : ascii) (s : string) :
  count c s = 1 ->
  exists m n, split c s = [m; n] /\ s = m ++ String c n.
Proof.
  induction s as [|a s IH]; simpl; [done|].
  destruct (Ascii.eqb_spec a c) as [->|Hne].
  - intros [= H]. exists "", s. by rewrite (split_no_sep _ _ H).
  - intros H. destruct (IH H) as (m & n & -> & ->). by exists (String a m), n.
Qed.

(** X1: [create] on a string: with exactly one [":"] the string is cut at it
    into the module and the name, and the arguments are stored as given;
    with none or several the assertion fails. *)
Theorem create_of_qualified_name (s : string)
    (args : list value) (kwargs : list (string * value)) :
  (count ":" s <> 1 -> create (VStr s) args kwargs = Err AssertionError) /\
  (count ":" s = 1 ->
     exists module name,
       s = module ++ ":" ++ name /\
       create (VStr s) args kwargs
         = Ok (ModuleSpec (VStr module) (VStr name) (VTuple args) (VDict kwargs))).
Proof.
  unfold create. split; intros H.
  - by apply Nat.eqb_neq in H as ->.
  - destruct (split_one_sep _ _ H) as (m & n & Hsplit & ->).
    exists m, n. split; [done|]. rewrite Hsplit.
    by apply Nat.eqb_eq in H as ->.
Qed.

Lemma create_of_qualified_name_witness :
  create (VStr "no_colon_here") [] [] = Err AssertionError /\
  create (VStr "a:b:c") [] [] = Err AssertionError /\
  exists module name,
    "math:Add" = module ++ ":" ++ name /\
    create (VStr "math:Add") [VInt 2; VInt 3] []
      = Ok (ModuleSpec (VStr module) (VStr name) (VTuple [VInt 2; VInt 3]) (VDict [])).
Proof.
  split_and!.
  - by apply (create_of_qualified_name "no_colon_here" [] []).
  - by apply (create_of_qualified_name "a:b:c" [] []).
  - by apply (create_of_qualified_name "math:Add" [VInt 2; VInt 3] []).
Defined.

Lemma as_strs_VStr (strs : list string) : as_strs (VStr <$> strs) = Ok strs.
Proof.
  induction strs as [|s strs IH]; [done|].
  rewrite fmap_cons. cbn [as_strs]. by rewrite IH.
Qed.

(** X2: [to_string] on a Spec whose [args] are all strings: module and name
    around a colon, then the [args] in order, then the [kwargs] in order as
    [name=value], separated by [", "], with no separator between the two
    groups when one of them is empty. *)
Theorem to_string_of_str_args (py_str : value -> string) (module name : value)
    (strs : list string) (kwargs : list (string * value)) :
  to_string py_str (ModuleSpec module name (VTuple (VStr <$> strs)) (VDict kwargs))
    = Ok (py_str module ++ ":" ++ py_str name ++ "("
          ++ join ", " strs
          ++ (if negb (length strs =? 0)%nat && negb (length kwargs =? 0)%nat
              then ", " else "")
          ++ join ", " ((fun kv => kv.1 ++ "=" ++ py_str kv.2) <$> kwargs) ++ ")").
Proof.
  unfold to_string, ModuleSpec, str_join.
  cbn [getitem dict_get String.eqb Ascii.eqb Bool.eqb rbind unpack_iter items_of truthy].
  rewrite as_strs_VStr, length_fmap. cbn [rbind].
  by destruct (length strs =? 0)%nat, (length kwargs =? 0)%nat.
Qed.

Example to_string_of_str_args_example :
  to_string str_scalar
    (ModuleSpec (VStr "ns") (VStr "Name") (VTuple [VStr "1"; VStr "2"]) (VDict [("x", VInt 3)]))
  = Ok "ns:Name(1, 2, x=3)".
Proof. reflexivity. Qed.

(** [instantiate(None)] is [None], and nothing is imported. *)
Theorem instantiate_None {W : Type}
    (import_module : string -> W -> option module_attrs * W) (s : state W) :
  instantiate import_module VNone s = (Ok VNone, s).
Proof. done. Qed.

Section PathFacts.
Import Store.

Lemma fold_descend_Err h (names : list string) e :
  fold_left (fun acc key_part => let? d := acc in descend h d key_part) names (Err e)
    = Err e.
Proof. by induction names. Qed.

Lemma fold_descend_app h (names more : list string) d target :
  locates h d names target ->
  fold_left (fun acc key_part => let? d := acc in descend h d key_part)
    (names ++ more) (Ok d)
  = fold_left (fun acc key_part => let? d := acc in descend h d key_part) more (Ok target).
Proof. intros H. by rewrite fold_left_app, (locates_fold _ _ _ _ H). Qed.

(** X3: a name of the path, other than the last, that is absent from the
    mapping it is looked up in makes [add_kwarg] fail with the [KeyError]
    of that name; the store is not written. *)
Theorem add_kwarg_missing_segment
    (h : heap) (root : hval) (k : string) (names : list string) (name : string)
    (more : list string) (v target : hval) (l : loc) (o : hobj)
    (items : list (string * hval)) :
  split "." k = (names ++ name :: more)%list ->
  more <> [] ->
  locates h root names target ->
  holder h target l ->
  h !! l = Some o ->
  mapping_items o = Some items ->
  name ∉ items.*1 ->
  add_kwarg h root k v = Err (KeyError name).
Proof.
  intros Hsplit Hmore Hloc Hholder Hl Ho Habsent. unfold add_kwarg. rewrite Hsplit.
  destruct (exists_last Hmore) as (more' & final & ->).
  replace (names ++ name :: more' ++ [final])%list
    with ((names ++ name :: more') ++ [final])%list by by rewrite <-app_assoc.
  rewrite removelast_last, (fold_descend_app _ _ _ _ _ Hloc). cbn [fold_left rbind].
  unfold descend at 2. rewrite (holder_enter_kwargs _ _ _ Hholder). cbn [rbind].
  rewrite (getitem_mapping _ _ _ _ _ Hl Ho).
  apply dict_get_None_iff in Habsent. rewrite Habsent.
  by rewrite fold_descend_Err.
Qed.
End PathFacts.

Lemma add_kwarg_missing_segment_witness :
  Store.add_kwarg Store.example_store (Store.HRef 1) "a.z.c" (Store.HInt 5)
    = Err (KeyError "z").
Proof.
  apply (add_kwarg_missing_segment Store.example_store (Store.HRef 1) "a.z.c"
           ["a"] "z" ["c"] (Store.HInt 5) (Store.HRef 2) 3
           (Store.ODict [("b", Store.HRef 4)]) [("b", Store.HRef 4)]).
  - reflexivity.
  - discriminate.
  - eapply Store.locates_plain; [reflexivity..|]. apply Store.locates_here.
  - by apply Store.holder_spec.
  - reflexivity.
  - reflexivity.
  - apply (bool_decide_unpack _). by vm_compute.
Defined.

(** The adder of the specification's end-to-end example: [create("math:Add",
    2, 3)] resolves and calls to [5], and to [6] with [offset=1] given at
    call time. *)
Example math_add_end_to_end :
  (spec <- lift (create (VStr "math:Add") [VInt 2; VInt 3] []) ;;
   binding <- instantiate example_import spec ;;
   call example_invoke binding [] []) (State 0 [])
    = (Ok (VInt 5), State 1 [EvImport "math"; EvCall Add [VInt 2; VInt 3] []]) /\
  (spec <- lift (create (VStr "math:Add") [VInt 2; VInt 3] []) ;;
   binding <- instantiate example_import spec ;;
   call example_invoke binding [] [("offset", VInt 1)]) (State 0 [])
    = (Ok (VInt 6),
       State 1 [EvImport "math"; EvCall Add [VInt 2; VInt 3] [("offset", VInt 1)]]).
Proof. split; reflexivity. Qed.

(** ** More on [create], [_import_from_string] and [instantiate] *)

(** X4: [create] on a source that is not a string succeeds exactly for a
    callable that has both a [__module__] and a [__name__], which it
    stores with the arguments as given; for every other source it fails
    with the "Could not infer" error. *)
Theorem create_of_callable (o : value)
    (args : list value) (kwargs : list (string * value)) :
  is_str o = false ->
  (forall spec,
     create o args kwargs = Ok spec <->
     exists c m n,
       o = VCallable c /\ co_module c = Some m /\ co_name c = Some n /\
       spec = ModuleSpec (VStr m) (VStr n) (VTuple args) (VDict kwargs)) /\
  (forall e, create o args kwargs = Err e -> e = ValueError CouldNotInfer).
Proof.
  intros Hstr. unfold create, _infer_full_name. split.
  - intros spec. split.
    + destruct o as [| | | | | | | | |c| |]; try done.
      destruct (co_module c) as [m|] eqn:Hm, (co_name c) as [n|] eqn:Hn; try done.
      intros [= <-]. by exists c, m, n.
    + intros (c & m & n & -> & Hm & Hn & ->). by rewrite Hm, Hn.
  - intros e. destruct o as [| | | | | | | | |c| |]; try done; try by intros [= <-].
    destruct (co_module c), (co_name c); try done; by intros [= <-].
Qed.

Lemma create_of_callable_witness :
  create (VCallable Add) [VInt 2] [("offset", VInt 1)]
    = Ok (ModuleSpec (VStr "math") (VStr "Add") (VTuple [VInt 2]) (VDict [("offset", VInt 1)]))
  /\ create (VObject 7) [] [] = Err (ValueError CouldNotInfer).
Proof.
  split.
  - apply (create_of_callable (VCallable Add) [VInt 2] [("offset", VInt 1)] eq_refl).
    by exists Add, "math", "Add".
  - destruct (create (VObject 7) [] []) as [spec|e] eqn:E; [done|].
    by rewrite (proj2 (create_of_callable (VObject 7) [] [] eq_refl) e E).
Defined.

Lemma create_Ok_inv (src : value) (args : list value) (kwargs : list (string * value))
    (spec : value) :
  create src args kwargs = Ok spec ->
  exists m n, spec = ModuleSpec (VStr m) (VStr n) (VTuple args) (VDict kwargs).
Proof.
  unfold create.
  destruct (match src with VStr _ => _ | _ => _ end) as [[m n]|e]; [|done].
  intros [= <-]. by exists m, n.
Qed.

Section ResolverErrors.
Context {W : Type}.
Variable import_module : string -> W -> option module_attrs * W.

Lemma _import_from_string_Err_inv (module_string name : value) (s s' : state W) e :
  _import_from_string import_module module_string name s = (Err e, s') ->
  e = ValueError CouldNotImport /\
  ((exists m, module_string = VStr m /\ trace s' = (trace s ++ [EvImport m])%list) \/
   (is_str module_string = false /\ s' = s)).
Proof.
  unfold _import_from_string, bind, do_import, raise, ret. intros H.
  destruct module_string as [| | |m| | | | | | | |]; simplify_eq/=;
    try (split; [done | by right]).
  destruct (import_module m (world s)) as [[attrs|] w]; simpl in H.
  - destruct name as [| | |n| | | | | | | |]; simplify_eq/=;
      try (split; [done | left; by exists m]).
    destruct (attrs n); simplify_eq/=. split; [done | left; by exists m].
  - simplify_eq/=. split; [done | left; by exists m].
Qed.

(** X5: [_import_from_string] turns every failure of the lookup into the
    one "Could not import" [ValueError], and imports at most the one module
    it is given: nothing when the module name is not a string. *)
Theorem _import_from_string_wraps_errors
    (module_string name : value) (s s' : state W) (r : result value) :
  _import_from_string import_module module_string name s = (r, s') ->
  (forall e, r = Err e -> e = ValueError CouldNotImport) /\
  ((exists m, module_string = VStr m /\ trace s' = (trace s ++ [EvImport m])%list) \/
   (is_str module_string = false /\ s' = s)).
Proof.
  destruct r as [v|e]; intros H.
  - split; [done|]. left.
    apply _import_from_string_Ok_inv in H as (m & n & attrs & w & -> & _ & _ & _ & ->).
    by exists m.
  - apply _import_from_string_Err_inv in H as [-> Htrace]. split; [by intros e [= <-]|done].
Qed.

(** X6: what [instantiate] can do.  It fails only with [AttributeError]
    (no [keys]), the "Expected ModuleSpec" or the "Could not import"
    [ValueError], or [TypeError] (arguments that do not unpack, a lookup
    result that is not callable), never with a [KeyError]; it returns
    [None] for [None] and a [partial] otherwise; and it calls nothing: the
    trace grows by the import of the Spec's module, or not at all. *)
Theorem instantiate_outcomes (spec : value) (s s' : state W) (r : result value) :
  instantiate import_module spec s = (r, s') ->
  (forall e, r = Err e ->
     e = AttributeError \/ e = ValueError ExpectedModuleSpec \/
     e = ValueError CouldNotImport \/ e = TypeError) /\
  (forall b, r = Ok b ->
     (spec = VNone /\ b = VNone /\ s' = s) \/
     (exists c args kwargs m,
        b = VPartial c args kwargs /\ getitem spec "module" = Ok (VStr m) /\
        trace s' = (trace s ++ [EvImport m])%list)) /\
  (s' = s \/
   exists m, getitem spec "module" = Ok (VStr m) /\
             trace s' = (trace s ++ [EvImport m])%list).
Proof.
  assert (spec = VNone \/ spec <> VNone) as [->|Hspec]
    by (destruct spec; first [by left | by right]).
  { intros [= <- <-]. split_and!; [done| |by left]. intros b [= <-]. by left. }
  rewrite instantiate_not_None by done. intros H.
  destruct (keys spec) as [ks|e0] eqn:Hks; cycle 1.
  { assert (e0 = AttributeError) as -> by (destruct spec; by simplify_eq/=).
    unfold check_keys in H. rewrite Hks in H. unfold bind at 1, lift at 1 in H.
    cbn [rbind] in H. injection H as <- <-.
    split_and!; [intros e [= <-]; by left|done|by left]. }
  rewrite (check_keys_keys _ _ Hks) in H.
  destruct (keys_differ ks) eqn:Hdiff.
  { injection H as <- <-. split_and!; [intros e [= <-]; auto|done|by left]. }
  assert (forall k, k ∈ ks -> exists x, getitem spec k = Ok x) as Hget.
  { intros k Hk. destruct spec; simplify_eq/=.
    all: destruct (dict_get items k) eqn:E; [by eexists|].
    all: by apply dict_get_None_iff in E. }
  assert (list_to_set ks =@{gset string} list_to_set spec_keys) as Hset.
  { unfold keys_differ in Hdiff. apply bool_decide_eq_false in Hdiff.
    by apply dec_stable in Hdiff. }
  assert (forall k, k ∈ spec_keys -> exists x, getitem spec k = Ok x) as Hfour.
  { intros k Hk. apply Hget. apply (elem_of_list_to_set (C:=gset string)).
    rewrite Hset. by apply elem_of_list_to_set. }
  destruct (Hfour "module") as [module Hmodule]; [by repeat constructor|].
  destruct (Hfour "name") as [name Hname]; [by repeat constructor|].
  destruct (Hfour "args") as [a Ha]; [by repeat constructor|].
  destruct (Hfour "kwargs") as [kw Hkw]; [by repeat constructor|].
  rewrite Hmodule, Hname, Ha, Hkw in H.
  rewrite (bind_Ok (lift (Ok tt)) _ s tt s eq_refl) in H.
  rewrite (bind_Ok (lift (Ok module)) _ s module s eq_refl) in H.
  rewrite (bind_Ok (lift (Ok name)) _ s name s eq_refl) in H.
  destruct (_import_from_string import_module module name s) as [[cls|e] s1] eqn:Himp.
  - rewrite (bind_Ok _ _ _ _ _ Himp) in H.
    apply _import_from_string_Ok_inv in Himp as (m & n & attrs & w & -> & -> & _ & _ & ->).
    unfold bind, lift in H.
    destruct (unpack_iter a) as [args|e1] eqn:Hargs; cycle 1.
    { simplify_eq/=. apply unpack_iter_Err in Hargs as ->.
      split_and!; [intros e [= <-]; auto|done|right; by exists m]. }
    destruct (unpack_mapping kw) as [kwargs|e1] eqn:Hkwargs; cycle 1.
    { simplify_eq/=. apply unpack_mapping_Err in Hkwargs as ->.
      split_and!; [intros e [= <-]; auto|done|right; by exists m]. }
    injection H as <- <-. split_and!; [| |right; by exists m].
    + intros e He. destruct cls; simplify_eq/=; auto.
    + intros b Hb. right. destruct cls; simplify_eq/=; by eexists _, _, _, m.
  - rewrite (bind_Err _ _ _ _ _ Himp) in H. injection H as <- <-.
    destruct (_import_from_string_Err_inv _ _ _ _ _ Himp) as [-> Htrace].
    split_and!; [intros e' [= <-]; auto|done|].
    destruct Htrace as [(m & -> & Htrace)|[_ ->]]; [right; by exists m|by left].
Qed.

(** X7: a Spec that [create] returns is a Spec for [is_module_spec] and
    passes the key check of [instantiate], whatever its arguments are, so
    [instantiate] on it can only fail because the lookup fails or finds
    something that is not callable. *)
Theorem created_spec_is_well_shaped
    (src : value) (args : list value) (kwargs : list (string * value))
    (spec : value) (s : state W) :
  create src args kwargs = Ok spec ->
  is_module_spec spec = true /\
  check_keys spec = Ok tt /\
  ((exists c bound_args bound_kwargs s',
      instantiate import_module spec s = (Ok (VPartial c bound_args bound_kwargs), s')) \/
   (exists s', instantiate import_module spec s = (Err (ValueError CouldNotImport), s')) \/
   (exists s', instantiate import_module spec s = (Err TypeError, s'))).
Proof.
  intros (m & n & ->)%create_Ok_inv. split_and!; [done..|].
  rewrite instantiate_ModuleSpec. cbn [unpack_iter unpack_mapping].
  destruct (_import_from_string import_module (VStr m) (VStr n) s) as [[cls|e] s1] eqn:Himp.
  - rewrite (bind_Ok _ _ _ _ _ Himp). unfold bind, lift.
    destruct cls; simpl; eauto 10.
  - rewrite (bind_Err _ _ _ _ _ Himp).
    destruct (_import_from_string_Err_inv _ _ _ _ _ Himp) as [-> _]. eauto.
Qed.
End ResolverErrors.

Lemma _import_from_string_wraps_errors_witness :
  _import_from_string example_import (VStr "nowhere") (VStr "Add") (State 0 [])
    = (Err (ValueError CouldNotImport), State 0 [EvImport "nowhere"]) /\
  ((exists m, VStr "nowhere" = VStr m /\
      trace (State 0 [EvImport "nowhere"]) = (trace (State 0 []) ++ [EvImport m])%list) \/
   (is_str (VStr "nowhere") = false /\ State 0 [EvImport "nowhere"] = State 0 [])).
Proof.
  split; [reflexivity|].
  apply (_import_from_string_wraps_errors example_import (VStr "nowhere") (VStr "Add")
           (State 0 []) (State 0 [EvImport "nowhere"]) (Err (ValueError CouldNotImport))).
  reflexivity.
Defined.

Lemma instantiate_outcomes_witness :
  exists c args kwargs m,
    VPartial Add [VInt 2; VInt 3] [] = VPartial c args kwargs /\
    getitem (ModuleSpec (VStr "math") (VStr "Add") (VTuple [VInt 2; VInt 3]) (VDict []))
      "module" = Ok (VStr m) /\
    trace (State 0 [EvImport "math"]) = (trace (State 0 []) ++ [EvImport m])%list.
Proof.
  destruct (instantiate_outcomes example_import
              (ModuleSpec (VStr "math") (VStr "Add") (VTuple [VInt 2; VInt 3]) (VDict []))
              (State 0 []) (State 0 [EvImport "math"])
              (Ok (VPartial Add [VInt 2; VInt 3] [])) eq_refl) as (_ & Hok & _).
  destruct (Hok _ eq_refl) as [(H & _)|H]; [discriminate H|exact H].
Defined.

Lemma created_spec_is_well_shaped_witness :
  is_module_spec (ModuleSpec (VStr "math") (VStr "Add") (VTuple [VInt 2]) (VDict [])) = true /\
  check_keys (ModuleSpec (VStr "math") (VStr "Add") (VTuple [VInt 2]) (VDict [])) = Ok tt.
Proof.
  destruct (created_spec_is_well_shaped example_import (VStr "math:Add") [VInt 2] []
              (ModuleSpec (VStr "math") (VStr "Add") (VTuple [VInt 2]) (VDict []))
              (State 0 []) eq_refl) as (H1 & H2 & _).
  by split.
Defined.

(** ** More on [to_string] *)

Lemma as_strs_Ok_iff (xs : list value) :
  (exists strs, as_strs xs = Ok strs) <-> forallb is_str xs = true.
Proof.
  induction xs as [|x xs IH]; simpl.
  - split; [done|by exists []].
  - destruct x; simpl; try (split; [by intros [? ?]|done]).
    rewrite <-IH. split.
    + intros [strs H]. destruct (as_strs xs) as [ss|]; [by exists ss|done].
    + intros [ss ->]. by eexists.
Qed.

Lemma as_strs_Err (xs : list value) e : as_strs xs = Err e -> e = TypeError.
Proof.
  induction xs as [|x xs IH]; simpl; [done|].
  destruct x; try by intros [= <-].
  destruct (as_strs xs); [done|]. intros [= <-]. by apply IH.
Qed.

(** X8: on a Spec whose [args] are a tuple or a list and whose [kwargs]
    are a dict, [to_string] returns a string exactly when every stored
    positional argument is a string, and raises [TypeError] as soon as one
    is not, whatever the keyword arguments are. *)
Theorem to_string_needs_str_args (py_str : value -> string) (module name a : value)
    (args : list value) (kwargs : list (string * value)) :
  a = VTuple args \/ a = VList args ->
  (forallb is_str args = true <->
     exists out, to_string py_str (ModuleSpec module name a (VDict kwargs)) = Ok out) /\
  (forallb is_str args = false <->
     to_string py_str (ModuleSpec module name a (VDict kwargs)) = Err TypeError).
Proof.
  intros Ha.
  assert (unpack_iter a = Ok args) as Hunpack by (by destruct Ha as [-> | ->]).
  unfold to_string, ModuleSpec, str_join.
  cbn [getitem dict_get String.eqb Ascii.eqb Bool.eqb rbind items_of].
  rewrite Hunpack. cbn [rbind].
  destruct (as_strs args) as [strs|e] eqn:Hstrs.
  - assert (forallb is_str args = true) as -> by (apply as_strs_Ok_iff; by exists strs).
    cbn [rbind]. split; [|split; [done|]].
    + split; [intros _|done]. destruct (truthy a); cbn [rbind]; by eexists.
    + destruct (truthy a); cbn [rbind]; done.
  - apply as_strs_Err in Hstrs as Heq. subst e. cbn [rbind].
    destruct (forallb is_str args) eqn:Hall.
    + apply as_strs_Ok_iff in Hall as [strs Hstrs']. congruence.
    + split; [|done]. split; [done|by intros [? ?]].
Qed.

Lemma to_string_needs_str_args_witness :
  (forallb is_str [VStr "1"; VInt 2] = false <->
   to_string str_scalar
     (ModuleSpec (VStr "ns") (VStr "Name") (VTuple [VStr "1"; VInt 2]) (VDict []))
     = Err TypeError).
Proof.
  apply (to_string_needs_str_args str_scalar (VStr "ns") (VStr "Name")
           (VTuple [VStr "1"; VInt 2]) [VStr "1"; VInt 2] []).
  by left.
Defined.

(** ** More on [add_kwarg] *)

Section OverrideFacts.
Import Store.
Implicit Types (h : heap) (d target : hval) (l : loc) (o : hobj)
  (items : list (string * hval)).

Lemma dict_set_keys_present {V} (items : list (string * V)) k v :
  k ∈ items.*1 -> (dict_set items k v).*1 = items.*1.
Proof.
  induction items as [|[k' v'] rest IH]; simpl.
  - intros H. inversion H.
  - destruct (String.eqb_spec k k') as [->|Hne]; [done|].
    intros [?|Hin]%elem_of_cons; [done|]. rewrite !fmap_cons. by rewrite IH.
Qed.

(** X9: when the path resolves and its last name is already a key of the
    mapping reached, [add_kwarg] replaces the value under that key where it
    stands: the mapping keeps its keys in their order, the name now holds
    the new value and every other name holds what it held. *)
Theorem add_kwarg_overwrites_present_key
    h (root : hval) (k : string) (names : list string) (name : string)
    (v target : hval) l o items :
  split "." k = (names ++ [name])%list ->
  locates h root names target ->
  holder h target l ->
  h !! l = Some o ->
  mapping_items o = Some items ->
  name ∈ items.*1 ->
  exists h' items',
    add_kwarg h root k v = Ok h' /\
    h' !! l = Some (set_mapping_items o items') /\
    items'.*1 = items.*1 /\
    dict_get items' name = Some v /\
    (forall k', k' <> name -> dict_get items' k' = dict_get items k').
Proof.
  intros Hsplit Hloc Hholder Hl Ho Hin. eexists _, (dict_set items name v). split_and!.
  - by eapply add_kwarg_located.
  - by rewrite lookup_insert_eq.
  - by apply dict_set_keys_present.
  - apply dict_get_set_eq.
  - intros k' Hne. by apply dict_get_set_ne.
Qed.

Lemma split_nonempty (c : ascii) (s : string) : split c s <> [].
Proof.
  destruct s as [|a s]; simpl; [done|].
  destruct (Ascii.eqb a c); [done|]. by destruct (split c s).
Qed.

Lemma fold_descend_locates h (names : list string) d target :
  fold_left (fun acc key_part => let? d := acc in descend h d key_part) names (Ok d)
    = Ok target ->
  locates h d names target.
Proof.
  revert d. induction names as [|name names IH]; intros d; simpl.
  - intros [= ->]. constructor.
  - destruct (descend h d name) as [next|e] eqn:Hnext.
    + intros H. apply IH in H. unfold descend, enter_kwargs in Hnext.
      destruct (is_module_spec h d) eqn:Hspec.
      * destruct (getitem h d "kwargs") as [kw|] eqn:Hkw; [|done].
        by eapply locates_spec.
      * by eapply locates_plain.
    + by rewrite fold_descend_Err.
Qed.

Lemma setitem_Ok_inv h d k v h' :
  setitem h d k v = Ok h' ->
  exists l o items,
    d = HRef l /\ h !! l = Some o /\ mapping_items o = Some items /\
    h' = <[l := set_mapping_items o (dict_set items k v)]> h.
Proof.
  destruct d as [| | | |l]; try done. cbn [setitem].
  destruct (h !! l) as [[items|items| | |]|] eqn:Hl; try done.
  - intros [= <-]. by exists l, (ODict items), items.
  - intros [= <-]. by exists l, (OMapping items), items.
Qed.

(** X10: whenever [add_kwarg] succeeds, the names before the last led to a
    node, through the [kwargs] of every Spec met, and the new store is the
    old one with one mapping changed at the one key that follows the last
    ["."] of the path; every other object is as it was and no object is
    added or removed. *)
Theorem add_kwarg_changes_one_mapping h (root : hval) (k : string) (v : hval) (h' : heap) :
  add_kwarg h root k v = Ok h' ->
  exists names name target l o items,
    split "." k = (names ++ [name])%list /\
    locates h root names target /\
    holder h target l /\
    h !! l = Some o /\ mapping_items o = Some items /\
    h' = <[l := set_mapping_items o (dict_set items name v)]> h /\
    (forall l', l' <> l -> h' !! l' = h !! l') /\
    dom h' = dom h.
Proof.
  unfold add_kwarg. intros H.
  destruct (exists_last (split_nonempty "." k)) as (names & name & Hsplit).
  rewrite Hsplit, removelast_last, last_last in H.
  destruct (fold_left _ names (Ok root)) as [target|] eqn:Hfold; [|done].
  apply fold_descend_locates in Hfold. cbn [rbind] in H.
  destruct (enter_kwargs h target) as [d|] eqn:Henter; [|done]. cbn [rbind] in H.
  apply setitem_Ok_inv in H as (l & o & items & -> & Hl & Ho & ->).
  exists names, name, target, l, o, items. split_and!; try done.
  - unfold enter_kwargs in Henter. destruct (is_module_spec h target) eqn:Hspec.
    + by apply holder_spec.
    + injection Henter as ->. by apply holder_plain.
  - intros l' Hne. by rewrite lookup_insert_ne.
  - rewrite dom_insert_L. apply subseteq_union_1_L, singleton_subseteq_l.
    by apply (elem_of_dom_2 (D:=gset loc)) in Hl.
Qed.

(** X11: when the path resolves to something that is not a mapping (a
    list, a tuple, a scalar), [add_kwarg] fails with [TypeError]. *)
Theorem add_kwarg_rejects_non_mapping
    h (root : hval) (k : string) (names : list string) (name : string)
    (v target d : hval) :
  split "." k = (names ++ [name])%list ->
  locates h root names target ->
  enter_kwargs h target = Ok d ->
  (forall l, d = HRef l -> exists o, h !! l = Some o /\ mapping_items o = None) ->
  add_kwarg h root k v = Err TypeError.
Proof.
  intros Hsplit Hloc Henter Hd. unfold add_kwarg.
  rewrite Hsplit, removelast_last, last_last, (locates_fold _ _ _ _ Hloc). cbn [rbind].
  rewrite Henter. cbn [rbind].
  destruct d as [| | | |l]; try done. cbn [setitem].
  destruct (Hd l eq_refl) as (o & -> & Ho). by destruct o.
Qed.
End OverrideFacts.

Lemma add_kwarg_overwrites_present_key_witness :
  exists h' items',
    Store.add_kwarg Store.example_store (Store.HRef 1) "a.b.x" (Store.HInt 5) = Ok h' /\
    h' !! 5 = Some (Store.set_mapping_items (Store.ODict [("x", Store.HInt 1)]) items') /\
    items'.*1 = [("x", Store.HInt 1)].*1 /\
    dict_get items' "x" = Some (Store.HInt 5) /\
    (forall k', k' <> "x" -> dict_get items' k' = dict_get [("x", Store.HInt 1)] k').
Proof.
  apply (add_kwarg_overwrites_present_key Store.example_store (Store.HRef 1) "a.b.x"
           ["a"; "b"] "x" (Store.HInt 5) (Store.HRef 4) 5
           (Store.ODict [("x", Store.HInt 1)]) [("x", Store.HInt 1)]).
  - reflexivity.
  - apply example_store_locates.
  - apply example_store_locates.
  - reflexivity.
  - reflexivity.
  - apply list_elem_of_here.
Defined.

Lemma add_kwarg_changes_one_mapping_witness :
  exists names name target l o items,
    split "." "a.b.c" = (names ++ [name])%list /\
    Store.locates Store.example_store (Store.HRef 1) names target /\
    Store.holder Store.example_store target l /\
    Store.example_store !! l = Some o /\ Store.mapping_items o = Some items /\
    <[5 := Store.ODict [("x", Store.HInt 1); ("c", Store.HInt 5)]]> Store.example_store
      = <[l := Store.set_mapping_items o (dict_set items name (Store.HInt 5))]>
          Store.example_store /\
    (forall l', l' <> l ->
       (<[5 := Store.ODict [("x", Store.HInt 1); ("c", Store.HInt 5)]]> Store.example_store)
         !! l' = Store.example_store !! l') /\
    dom (<[5 := Store.ODict [("x", Store.HInt 1); ("c", Store.HInt 5)]]> Store.example_store)
      = dom Store.example_store.
Proof.
  apply (add_kwarg_changes_one_mapping Store.example_store (Store.HRef 1) "a.b.c"
           (Store.HInt 5)).
  reflexivity.
Defined.

Lemma add_kwarg_rejects_non_mapping_witness :
  Store.add_kwarg Store.example_store (Store.HRef 1) "a.b.x.c" (Store.HInt 5)
    = Err TypeError.
Proof.
  apply (add_kwarg_rejects_non_mapping Store.example_store (Store.HRef 1) "a.b.x.c"
           ["a"; "b"; "x"] "c" (Store.HInt 5) (Store.HInt 1) (Store.HInt 1)).
  - reflexivity.
  - eapply Store.locates_plain; [reflexivity..|].
    eapply Store.locates_spec; [reflexivity..|].
    eapply Store.locates_spec; [reflexivity..|]. apply Store.locates_here.
  - reflexivity.
  - intros l [=].
Defined.

(** ** More on [recursively_instantiate] *)

Lemma imports_app (t1 t2 : list event) : imports (t1 ++ t2) = imports t1 + imports t2.
Proof. unfold imports. by rewrite List.filter_app, length_app. Qed.

Lemma calls_app (t1 t2 : list event) : calls (t1 ++ t2) = calls t1 + calls t2.
Proof. unfold calls. by rewrite List.filter_app, length_app. Qed.

Lemma item_count_get (f : value -> nat) k items v :
  dict_get items k = Some v -> item_count f k items = f v.
Proof.
  induction items as [|[k' v'] rest IH]; simpl; [done|].
  destruct (String.eqb k k'); [by intros [= ->] | done].
Qed.

Section InstantiatorMore.
Context {W : Type}.
Variable import_module : string -> W -> option module_attrs * W.
Variable invoke : callable -> list value -> list (string * value) -> W -> result value * W.

#[local] Abbreviation rec := (recursively_instantiate import_module invoke).

Lemma each_in_turn_counted {A B} (f : A -> M W B) (g : A -> nat) xs s ys s' :
  Forall (counted f g) xs ->
  each_in_turn f xs s ys s' ->
  exists t, trace s' = (trace s ++ t)%list /\
            imports t = sum_list_with g xs /\ calls t = sum_list_with g xs.
Proof.
  intros Hall H. induction H as [s|x xs y ys s s1 s2 Hx _ IH].
  - exists []. by rewrite app_nil_r.
  - apply Forall_cons in Hall as [Hx' Hall].
    destruct (Hx' _ _ _ Hx) as (t1 & Ht1 & Hi1 & Hc1).
    destruct (IH Hall) as (t2 & Ht2 & Hi2 & Hc2).
    exists (t1 ++ t2)%list. rewrite imports_app, calls_app, Ht2, Ht1, Hi1, Hi2, Hc1, Hc2.
    by rewrite <-app_assoc.
Qed.

(** X12: a successful [recursively_instantiate] imports once and calls
    once for every Spec node it meets, and does nothing else: nothing is
    remembered between nodes, so a Spec that occurs twice is looked up and
    called twice. *)
Theorem one_import_and_call_per_spec (v : value) (s s' : state W) (r : value) :
  rec v s = (Ok r, s') ->
  exists t,
    trace s' = (trace s ++ t)%list /\
    imports t = spec_nodes v /\
    calls t = spec_nodes v.
Proof.
  revert s r s'.
  induction v as [| | |str|xs IH|xs IH|xs IH|items IH|items IH| | |] using value_ind';
    intros s r s' Hrun;
    try (injection Hrun as <- <-; exists []; by rewrite app_nil_r).
  - rewrite rec_tuple in Hrun. apply bind_Ok_inv in Hrun as (ys & s1 & Hrun & [= <- <-]).
    apply mapM_each_in_turn in Hrun. by eapply each_in_turn_counted.
  - rewrite rec_list in Hrun. apply bind_Ok_inv in Hrun as (ys & s1 & Hrun & [= <- <-]).
    apply mapM_each_in_turn in Hrun. by eapply each_in_turn_counted.
  - cbn [spec_nodes]. destruct (dict_is_spec items) eqn:Hshape.
    + destruct (rec_spec_inv _ _ _ _ _ _ Hshape Hrun)
        as (module & name & a & kw & args & kwargs & s1 & s2 & binding & s3
            & _ & _ & Ha & Hkw & Hargs & Hkwargs & Hbinding & Hcall).
      rewrite Forall_forall in IH.
      apply (IH _ (dict_get_Some_elem_of _ _ _ Ha)) in Hargs as (t1 & Ht1 & Hi1 & Hc1).
      apply (IH _ (dict_get_Some_elem_of _ _ _ Hkw)) in Hkwargs as (t2 & Ht2 & Hi2 & Hc2).
      destruct (resolve_then_call _ _ _ _ _ _ _ _ _ _ _ Hbinding Hcall)
        as (m & c & ao & ko & _ & _ & Ht3).
      exists (t1 ++ t2 ++ [EvImport m; EvCall c ao ko])%list.
      rewrite (item_count_get _ _ _ _ Ha), (item_count_get _ _ _ _ Hkw).
      rewrite !imports_app, !calls_app, Ht3, Ht2, Ht1. cbn in *.
      rewrite <-!app_assoc. split_and!; [done|lia..].
    + rewrite (rec_dict _ _ _ Hshape) in Hrun.
      apply bind_Ok_inv in Hrun as (ys & s1 & Hrun & [= <- <-]).
      apply mapM_each_in_turn in Hrun.
      eapply (each_in_turn_counted _ (fun kv => spec_nodes kv.2)); [|done].
      eapply Forall_impl; [exact IH|]. intros kv Hkv s0 y s0' Hy.
      apply bind_Ok_inv in Hy as (y' & s0'' & Hy & [= <- <-]). by eapply Hkv.
Qed.

Lemma bind_Err_inv {A B} (m : M W A) (k : A -> M W B) s e s' :
  bind m k s = (Err e, s') ->
  m s = (Err e, s') \/ exists a s1, m s = (Ok a, s1) /\ k a s1 = (Err e, s').
Proof.
  unfold bind. destruct (m s) as [[a|e0] s1]; [|intros [= <- <-]; by left].
  intros H. right. by exists a, s1.
Qed.

Lemma mapM_Err_inv {A B} (f : A -> M W B) xs s e s' :
  mapM f xs s = (Err e, s') ->
  exists pre x post ys s1,
    xs = (pre ++ x :: post)%list /\ each_in_turn f pre s ys s1 /\ f x s1 = (Err e, s').
Proof.
  revert s. induction xs as [|x xs IH]; intros s; simpl; [done|].
  intros [Hx|(y & s1 & Hx & H)]%bind_Err_inv.
  - exists [], x, xs, [], s. split_and!; [done|constructor|done].
  - apply bind_Err_inv in H as [H|(ys & s2 & _ & H)]; [|done].
    destruct (IH _ H) as (pre & x' & post & ys & s2 & -> & Hpre & Hx').
    exists (x :: pre), x', post, (y :: ys), s2. split_and!; [done| |done].
    by econstructor.
Qed.

Lemma mapM_app_Err {A B} (f : A -> M W B) pre x post s ys s1 e s2 :
  each_in_turn f pre s ys s1 ->
  f x s1 = (Err e, s2) ->
  mapM f (pre ++ x :: post) s = (Err e, s2).
Proof.
  induction 1 as [s|x0 xs y ys s s0 s1 Hx0 _ IH]; intros Hx; simpl.
  - by rewrite (bind_Err _ _ _ _ _ Hx).
  - rewrite (bind_Ok _ _ _ _ _ Hx0). by rewrite (bind_Err _ _ _ _ _ (IH Hx)).
Qed.

(** X13: [recursively_instantiate] fails only when a lookup fails ("Could
    not import"), when arguments do not unpack or a lookup result is not
    callable ([TypeError]), or when a constructible raises; the Spec it
    rebuilds for [instantiate] always has the four keys, so it never fails
    with "Expected ModuleSpec", a [KeyError] or an [AttributeError] of its
    own. *)
Theorem recursively_instantiate_errors (v : value) (s s' : state W) (e : exn) :
  rec v s = (Err e, s') ->
  e = ValueError CouldNotImport \/ e = TypeError \/
  exists c args kwargs w, (invoke c args kwargs w).1 = Err e.
Proof.
  revert s s'.
  induction v as [| | |str|xs IH|xs IH|xs IH|items IH|items IH| | |] using value_ind';
    intros s s' Hrun; try done.
  - rewrite rec_tuple in Hrun. apply bind_Err_inv in Hrun as [Hrun|(? & ? & _ & ?)]; [|done].
    apply mapM_Err_inv in Hrun as (pre & x & post & ys & s1 & -> & _ & Hx).
    rewrite Forall_forall in IH. eapply IH; [|done].
    apply elem_of_app. right. apply list_elem_of_here.
  - rewrite rec_list in Hrun. apply bind_Err_inv in Hrun as [Hrun|(? & ? & _ & ?)]; [|done].
    apply mapM_Err_inv in Hrun as (pre & x & post & ys & s1 & -> & _ & Hx).
    rewrite Forall_forall in IH. eapply IH; [|done].
    apply elem_of_app. right. apply list_elem_of_here.
  - destruct (dict_is_spec items) eqn:Hshape.
    + destruct (dict_is_spec_get _ Hshape) as (module & name & a & kw & Hm & Hn & Ha & Hkw).
      rewrite (rec_spec _ _ _ _ _ _ _ Hshape Hm Hn Ha Hkw) in Hrun.
      rewrite Forall_forall in IH.
      apply bind_Err_inv in Hrun as [Hrun|(args & s1 & _ & Hrun)].
      { by eapply (IH _ (dict_get_Some_elem_of _ _ _ Ha)). }
      apply bind_Err_inv in Hrun as [Hrun|(kwargs & s2 & _ & Hrun)].
      { by eapply (IH _ (dict_get_Some_elem_of _ _ _ Hkw)). }
      apply bind_Err_inv in Hrun as [Hrun|(binding & s3 & Hbinding & Hrun)].
      * rewrite instantiate_ModuleSpec in Hrun.
        apply bind_Err_inv in Hrun as [Hrun|(cls & s3 & _ & Hrun)].
        { apply _import_from_string_Err_inv in Hrun as [-> _]. by left. }
        right; left. unfold bind, lift in Hrun.
        destruct (unpack_iter args) eqn:E1;
          [|injection Hrun as <- _; by apply unpack_iter_Err in E1].
        destruct (unpack_mapping kwargs) eqn:E2;
          [|injection Hrun as <- _; by apply unpack_mapping_Err in E2].
        destruct cls; by simplify_eq/=.
      * rewrite instantiate_ModuleSpec in Hbinding.
        apply bind_Ok_inv in Hbinding as (cls & s4 & _ & Hbinding).
        apply bind_Ok_inv in Hbinding as (args' & s5 & _ & Hbinding).
        apply bind_Ok_inv in Hbinding as (kwargs' & s6 & _ & Hbinding).
        apply lift_Ok_inv in Hbinding as [Hpartial _].
        assert (exists c ao ko, binding = VPartial c ao ko) as (c & ao & ko & ->).
        { destruct cls; simplify_eq/=; by eexists _, _, _. }
        cbn [call] in Hrun. unfold do_call in Hrun.
        right; right. exists c, (ao ++ [])%list, (dict_update ko []), (world s3).
        destruct (invoke c _ _ (world s3)) as [r w]. by injection Hrun as -> _.
    + rewrite (rec_dict _ _ _ Hshape) in Hrun.
      apply bind_Err_inv in Hrun as [Hrun|(? & ? & _ & ?)]; [|done].
      apply mapM_Err_inv in Hrun as (pre & x & post & ys & s1 & -> & _ & Hx).
      apply bind_Err_inv in Hx as [Hx|(? & ? & _ & ?)]; [|done].
      rewrite Forall_forall in IH. eapply (IH x); [|done].
      apply elem_of_app. right. apply list_elem_of_here.
Qed.

(** X14: the elements of a list or a tuple are run from left to right and
    the first failure ends the run there: the error is that element's,
    the state is the one it left, and no later element is looked up or
    called. *)
Theorem first_failure_ends_the_run
    (pre post ys : list value) (x : value) (s s1 s2 : state W) (e : exn) :
  each_in_turn rec pre s ys s1 ->
  rec x s1 = (Err e, s2) ->
  rec (VList (pre ++ x :: post)) s = (Err e, s2) /\
  rec (VTuple (pre ++ x :: post)) s = (Err e, s2).
Proof.
  intros Hpre Hx. rewrite rec_list, rec_tuple.
  by rewrite !(bind_Err _ _ _ _ _ (mapM_app_Err _ _ _ post _ _ _ _ _ Hpre Hx)).
Qed.

Lemma spec_free_is_fixed (v : value) (s : state W) :
  spec_free v = true -> rec v s = (Ok v, s).
Proof.
  revert s. induction v as [| | |str|xs IH|xs IH|xs IH|items IH|items IH| | |] using value_ind';
    intros s Hfree; try done.
  - rewrite rec_tuple, (bind_Ok _ _ s xs s); [done|].
    apply mapM_id. cbn [spec_free] in Hfree. rewrite forallb_forall in Hfree.
    rewrite Forall_forall in IH |- *. intros x Hx s0.
    apply IH; [done|]. by apply Hfree, list_elem_of_In.
  - rewrite rec_list, (bind_Ok _ _ s xs s); [done|].
    apply mapM_id. cbn [spec_free] in Hfree. rewrite forallb_forall in Hfree.
    rewrite Forall_forall in IH |- *. intros x Hx s0.
    apply IH; [done|]. by apply Hfree, list_elem_of_In.
  - cbn [spec_free] in Hfree. apply andb_true_iff in Hfree as [Hshape Hfree].
    apply negb_true_iff in Hshape. rewrite forallb_forall in Hfree.
    rewrite (rec_dict _ _ _ Hshape), (bind_Ok _ _ s items s); [done|].
    apply mapM_id. rewrite Forall_forall in IH |- *. intros [k x] Hx s0.
    rewrite (bind_Ok _ _ s0 x s0); [done|].
    apply (IH _ Hx). by apply (Hfree (k, x)), list_elem_of_In.
Qed.

(** X15: on a Spec whose [args] and [kwargs] hold no Spec,
    [recursively_instantiate] is [instantiate] followed by a call with no
    argument: [recursively_instantiate(spec)] is [instantiate(spec)()]. *)
Theorem recursively_instantiate_flat_spec
    (items : list (string * value)) (module name a kw : value) (s : state W) :
  dict_is_spec items = true ->
  dict_get items "module" = Some module ->
  dict_get items "name" = Some name ->
  dict_get items "args" = Some a ->
  dict_get items "kwargs" = Some kw ->
  spec_free a = true ->
  spec_free kw = true ->
  rec (VDict items) s
    = (binding <- instantiate import_module (ModuleSpec module name a kw) ;;
       call invoke binding [] []) s.
Proof.
  intros Hshape Hm Hn Ha Hkw Hfa Hfkw.
  rewrite (rec_spec _ _ _ _ _ _ _ Hshape Hm Hn Ha Hkw).
  rewrite (bind_Ok _ _ _ _ _ (spec_free_is_fixed a s Hfa)).
  by rewrite (bind_Ok _ _ _ _ _ (spec_free_is_fixed kw s Hfkw)).
Qed.
End InstantiatorMore.

Lemma one_import_and_call_per_spec_witness :
  let spec := ModuleSpec (VStr "math") (VStr "Add") (VTuple [VInt 2; VInt 3]) (VDict []) in
  exists t,
    [EvImport "math"; EvCall Add [VInt 2; VInt 3] [];
     EvImport "math"; EvCall Add [VInt 2; VInt 3] []] = ([] ++ t)%list /\
    imports t = spec_nodes (VList [spec; spec]) /\
    calls t = spec_nodes (VList [spec; spec]).
Proof.
  intros spec.
  apply (one_import_and_call_per_spec example_import example_invoke (VList [spec; spec])
           (State 0 [])
           (State 2 [EvImport "math"; EvCall Add [VInt 2; VInt 3] [];
                     EvImport "math"; EvCall Add [VInt 2; VInt 3] []])
           (VList [VInt 5; VInt 5])).
  reflexivity.
Defined.

Lemma recursively_instantiate_errors_witness :
  ValueError CouldNotImport = ValueError CouldNotImport \/
  ValueError CouldNotImport = TypeError \/
  exists c args kwargs w,
    (example_invoke c args kwargs w).1 = Err (ValueError CouldNotImport).
Proof.
  apply (recursively_instantiate_errors example_import example_invoke
           (VDict [("sum", ModuleSpec (VStr "nowhere") (VStr "Add") (VTuple []) (VDict []))])
           (State 0 []) (State 0 [EvImport "nowhere"])).
  reflexivity.
Defined.

Lemma first_failure_ends_the_run_witness :
  let good := ModuleSpec (VStr "math") (VStr "Add") (VTuple [VInt 2; VInt 3]) (VDict []) in
  let bad := ModuleSpec (VStr "nowhere") (VStr "Add") (VTuple []) (VDict []) in
  recursively_instantiate example_import example_invoke (VList [good; bad; good]) (State 0 [])
    = (Err (ValueError CouldNotImport),
       State 1 [EvImport "math"; EvCall Add [VInt 2; VInt 3] []; EvImport "nowhere"]) /\
  recursively_instantiate example_import example_invoke (VTuple [good; bad; good]) (State 0 [])
    = (Err (ValueError CouldNotImport),
       State 1 [EvImport "math"; EvCall Add [VInt 2; VInt 3] []; EvImport "nowhere"]).
Proof.
  intros good bad.
  apply (first_failure_ends_the_run example_import example_invoke [good] [good] [VInt 5] bad
           (State 0 []) (State 1 [EvImport "math"; EvCall Add [VInt 2; VInt 3] []])).
  - econstructor; [reflexivity|constructor].
  - reflexivity.
Defined.

Lemma recursively_instantiate_flat_spec_witness :
  recursively_instantiate example_import example_invoke
    (VDict [("kwargs", VDict [("offset", VInt 1)]); ("args", VTuple [VInt 2; VInt 3]);
            ("name", VStr "Add"); ("module", VStr "math")])
    (State 0 [])
  = (binding <- instantiate example_import
                  (ModuleSpec (VStr "math") (VStr "Add") (VTuple [VInt 2; VInt 3])
                     (VDict [("offset", VInt 1)])) ;;
     call example_invoke binding [] []) (State 0 []).
Proof.
  apply (recursively_instantiate_flat_spec example_import example_invoke
           [("kwargs", VDict [("offset", VInt 1)]); ("args", VTuple [VInt 2; VInt 3]);
            ("name", VStr "Add"); ("module", VStr "math")]);
    reflexivity.
Defined.

(** ** Arguments bound in the Spec and arguments given at call time *)

Section DictUpdateFacts.
Context {V : Type}.
Implicit Types (d y e : list (string * V)) (k : string).

Lemma dict_set_comm d k k' (v v' : V) :
  k <> k' -> k ∈ d.*1 ->
  dict_set (dict_set d k v) k' v' = dict_set (dict_set d k' v') k v.
Proof.
  intros Hne. induction d as [|[k0 v0] d IH]; simpl.
  - intros H. inversion H.
  - intros Hin. destruct (String.eqb_spec k k0) as [->|Hk0].
    + simpl. destruct (String.eqb_spec k' k0) as [->|Hk0']; [done|]. simpl.
      by rewrite String.eqb_refl.
    + apply elem_of_cons in Hin as [?|Hin]; [done|]. simpl.
      destruct (String.eqb_spec k' k0) as [->|Hk0']; simpl.
      * by destruct (String.eqb_spec k k0).
      * destruct (String.eqb_spec k k0); [done|]. by rewrite IH.
Qed.

Lemma dict_set_set d k (v v' : V) :
  dict_set (dict_set d k v') k v = dict_set d k v.
Proof.
  induction d as [|[k0 v0] d IH]; cbn [dict_set].
  - by rewrite String.eqb_refl.
  - destruct (String.eqb_spec k k0) as [->|Hne]; cbn [dict_set].
    + by rewrite String.eqb_refl.
    + destruct (String.eqb_spec k k0); [done|]. by rewrite IH.
Qed.

Lemma dict_set_keys_elem d k (v : V) k' :
  k' ∈ (dict_set d k v).*1 <-> k' = k \/ k' ∈ d.*1.
Proof.
  induction d as [|[k0 v0] d IH]; cbn [dict_set].
  - rewrite fmap_cons, elem_of_cons. cbn [fst]. tauto.
  - destruct (String.eqb_spec k k0) as [->|Hk0]; rewrite !fmap_cons, !elem_of_cons; cbn [fst].
    + tauto.
    + rewrite IH. tauto.
Qed.

Lemma dict_set_NoDup d k (v : V) : NoDup d.*1 -> NoDup (dict_set d k v).*1.
Proof.
  induction d as [|[k0 v0] d IH]; cbn [dict_set].
  - intros _. apply NoDup_singleton.
  - rewrite fmap_cons, NoDup_cons. cbn [fst]. intros [Hk0 Hnd].
    destruct (String.eqb_spec k k0) as [->|Hne]; rewrite fmap_cons, NoDup_cons; cbn [fst].
    + done.
    + split; [|by apply IH]. rewrite dict_set_keys_elem. by intros [?|?].
Qed.

Lemma dict_update_NoDup d e : NoDup d.*1 -> NoDup (dict_update d e).*1.
Proof.
  unfold dict_update. revert d. induction e as [|[k v] e IH]; intros d Hnd; simpl; [done|].
  by apply IH, dict_set_NoDup.
Qed.

Lemma dict_update_snoc d e k (v : V) :
  dict_update d (e ++ [(k, v)]) = dict_set (dict_update d e) k v.
Proof. unfold dict_update. by rewrite fold_left_app. Qed.

Lemma dict_update_set_present d1 d2 y k (v : V) :
  k ∈ d2.*1 -> d1 = dict_set d2 k v -> k ∉ y.*1 ->
  dict_update d1 y = dict_set (dict_update d2 y) k v.
Proof.
  revert d1 d2. induction y as [|[k' v'] y IH]; intros d1 d2 Hin -> Hnotin.
  - done.
  - rewrite fmap_cons, not_elem_of_cons in Hnotin. destruct Hnotin as [Hne Hnotin].
    change (dict_update (dict_set (dict_set d2 k v) k' v') y
            = dict_set (dict_update (dict_set d2 k' v') y) k v).
    apply IH; [|by apply dict_set_comm|done].
    apply dict_set_keys_elem. by right.
Qed.

Lemma dict_update_set d y k (v : V) :
  NoDup y.*1 ->
  dict_update d (dict_set y k v) = dict_set (dict_update d y) k v.
Proof.
  revert d. induction y as [|[k' v'] y IH]; intros d Hnd.
  - done.
  - rewrite fmap_cons, NoDup_cons in Hnd. destruct Hnd as [Hk' Hnd]. simpl.
    destruct (String.eqb_spec k k') as [->|Hne].
    + change (dict_update (dict_set d k' v) y
              = dict_set (dict_update (dict_set d k' v') y) k' v).
      apply dict_update_set_present; [|by rewrite dict_set_set|done].
      apply dict_set_keys_elem. by left.
    + change (dict_update (dict_set d k' v') (dict_set y k v)
              = dict_set (dict_update (dict_set d k' v') y) k v).
      by apply IH.
Qed.

(** [{**{**d, **y}, **e}] is [{**d, **{**y, **e}}]. *)
Lemma dict_update_assoc d y e :
  NoDup y.*1 ->
  dict_update (dict_update d y) e = dict_update d (dict_update y e).
Proof.
  intros Hnd. induction e as [|[k v] e IH] using rev_ind; [done|].
  rewrite !dict_update_snoc, IH.
  symmetry. apply dict_update_set. by apply dict_update_NoDup.
Qed.
End DictUpdateFacts.

Section CallTimeArguments.
Context {W : Type}.
Variable import_module : string -> W -> option module_attrs * W.
Variable invoke : callable -> list value -> list (string * value) -> W -> result value * W.

Lemma instantiate_ModuleSpec_run (module name a kw : value) (s : state W) :
  instantiate import_module (ModuleSpec module name a kw) s =
    match _import_from_string import_module module name s with
    | (Ok cls, s1) =>
        (let? args := unpack_iter a in
         let? kwargs := unpack_mapping kw in
         partial cls args kwargs, s1)
    | (Err e, s1) => (Err e, s1)
    end.
Proof.
  rewrite instantiate_ModuleSpec. unfold bind, lift.
  destruct (_import_from_string import_module module name s) as [[cls|e] s1]; [|done].
  destruct (unpack_iter a); [|done]. by destruct (unpack_mapping kw).
Qed.

(** X16: arguments given when the binding is called count as if the Spec
    had stored them: [instantiate(spec)(extra..., more=...)] makes the call
    that [instantiate(spec')()] makes, where [spec'] is [spec] with the
    extra positional arguments appended to its [args] and its [kwargs]
    updated by the extra keyword arguments.  This holds whether the lookup
    finds a plain callable or a [partial], and both fail alike when it
    finds neither. *)
Theorem call_time_arguments_as_bound
    (module name : value) (args extra_args : list value)
    (kwargs extra_kwargs : list (string * value)) (s : state W) :
  NoDup kwargs.*1 ->
  (binding <- instantiate import_module
                (ModuleSpec module name (VTuple args) (VDict kwargs)) ;;
   call invoke binding extra_args extra_kwargs) s
  = (binding <- instantiate import_module
                  (ModuleSpec module name (VTuple (args ++ extra_args))
                     (VDict (dict_update kwargs extra_kwargs))) ;;
     call invoke binding [] []) s.
Proof.
  intros Hnd. unfold bind. rewrite !instantiate_ModuleSpec_run.
  cbn [unpack_iter unpack_mapping rbind].
  destruct (_import_from_string import_module module name s) as [[cls|e] s1]; [|done].
  destruct cls; try done; cbn [partial call].
  - by rewrite app_nil_r.
  - rewrite app_nil_r, <-app_assoc. by rewrite dict_update_assoc.
Qed.
End CallTimeArguments.

Lemma call_time_arguments_as_bound_witness :
  (binding <- instantiate example_import
                (ModuleSpec (VStr "math") (VStr "Add") (VTuple [VInt 2])
                   (VDict [("offset", VInt 1)])) ;;
   call example_invoke binding [VInt 3] [("offset", VInt 10)]) (State 0 [])
  = (Ok (VInt 15),
     State 1 [EvImport "math"; EvCall Add [VInt 2; VInt 3] [("offset", VInt 10)]]) /\
  (binding <- instantiate example_import
                (ModuleSpec (VStr "math") (VStr "Add") (VTuple [VInt 2])
                   (VDict [("offset", VInt 1)])) ;;
   call example_invoke binding [VInt 3] [("offset", VInt 10)]) (State 0 [])
  = (binding <- instantiate example_import
                  (ModuleSpec (VStr "math") (VStr "Add") (VTuple ([VInt 2] ++ [VInt 3]))
                     (VDict (dict_update [("offset", VInt 1)] [("offset", VInt 10)]))) ;;
     call example_invoke binding [] []) (State 0 []).
Proof.
  split; [reflexivity|].
  apply (call_time_arguments_as_bound example_import example_invoke (VStr "math") (VStr "Add")
           [VInt 2] [VInt 3] [("offset", VInt 1)] [("offset", VInt 10)] (State 0 [])).
  apply NoDup_singleton.
Defined.

(** ** The robomimic adapter *)

Section AdapterFacts.
Import Robomimic.
Context {E F Row : Type}.
Variable to_float32 : E -> F.
Variable zero : F.

Lemma obind_Done_inv {A B} (m : outcome A) (k : A -> outcome B) b :
  obind m k = Done b -> exists a, m = Done a /\ k a = Done b.
Proof. destruct m; [by eexists|done]. Qed.

Lemma vector_Done_inv (obs : @sim_obs E Row) k xs :
  vector obs k = Done xs <-> vectors obs !! k = Some xs.
Proof. unfold vector. destruct (vectors obs !! k); naive_solver. Qed.

Lemma picture_Done_inv (obs : @sim_obs E Row) k rows :
  picture obs k = Done rows <-> images obs !! k = Some rows.
Proof. unfold picture. destruct (images obs !! k); naive_solver. Qed.

Lemma pad_object_state_Done_inv x out :
  pad_object_state to_float32 zero x = Done out ->
  length x <= OBJECT_STATE_SIZE /\
  out = ((to_float32 <$> x) ++ replicate (OBJECT_STATE_SIZE - length x) zero)%list.
Proof.
  unfold pad_object_state. destruct (Nat.leb_spec (length x) OBJECT_STATE_SIZE); [|done].
  intros [= <-]; done.
Qed.

(** What a successful [_format_obs] has read and built. *)
Lemma _format_obs_Done_inv use (obs : @sim_obs E Row) o :
  _format_obs to_float32 zero use obs = Done o ->
  exists object_state eef_pos eef_quat gripper_qpos joint_pos joint_vel,
    vectors obs !! "object-state" = Some object_state /\
    vectors obs !! "robot0_eef_pos" = Some eef_pos /\
    vectors obs !! "robot0_eef_quat" = Some eef_quat /\
    vectors obs !! "robot0_gripper_qpos" = Some gripper_qpos /\
    vectors obs !! "robot0_joint_pos" = Some joint_pos /\
    vectors obs !! "robot0_joint_vel" = Some joint_vel /\
    length object_state <= OBJECT_STATE_SIZE /\
    obs_state o =
      [(EE_POS, Raw eef_pos); (EE_QUAT, Raw eef_quat); (GRIPPER, Raw (take 1 gripper_qpos));
       (JOINT_POS, Raw joint_pos); (JOINT_VEL, Raw joint_vel);
       (MISC, Float32 ((to_float32 <$> object_state)
                       ++ replicate (OBJECT_STATE_SIZE - length object_state) zero)%list)] /\
    (if use then
       exists agent wrist,
         images obs !! "agentview_image" = Some agent /\
         images obs !! "robot0_eye_in_hand_image" = Some wrist /\
         obs_image o = Some [("agent", reverse agent); ("wrist", reverse wrist)]
     else obs_image o = None).
Proof.
  unfold _format_obs. intros H.
  apply obind_Done_inv in H as (object_state & H1 & H).
  apply obind_Done_inv in H as (obj_state & Hp & H).
  apply obind_Done_inv in H as (eef_pos & H2 & H).
  apply obind_Done_inv in H as (eef_quat & H3 & H).
  apply obind_Done_inv in H as (gripper_qpos & H4 & H).
  apply obind_Done_inv in H as (joint_pos & H5 & H).
  apply obind_Done_inv in H as (joint_vel & H6 & H).
  apply vector_Done_inv in H1, H2, H3, H4, H5, H6.
  apply pad_object_state_Done_inv in Hp as [Hlen ->].
  exists object_state, eef_pos, eef_quat, gripper_qpos, joint_pos, joint_vel.
  destruct use.
  - apply obind_Done_inv in H as (agent & Ha & H).
    apply obind_Done_inv in H as (wrist & Hw & H).
    apply picture_Done_inv in Ha, Hw. injection H as <-.
    split_and!; try done. by exists agent, wrist.
  - injection H as <-. by split_and!.
Qed.

(** X17: the object state comes out under [MISC] as a vector of exactly
    [OBJECT_STATE_SIZE] entries: the simulator's entries cast to
    [float32], in order, followed by zeros. *)
Theorem object_state_is_zero_padded use (obs : @sim_obs E Row) o :
  _format_obs to_float32 zero use obs = Done o ->
  exists object_state padded,
    vectors obs !! "object-state" = Some object_state /\
    enc_get (obs_state o) MISC = Some (Float32 padded) /\
    length padded = OBJECT_STATE_SIZE /\
    forall i, i < OBJECT_STATE_SIZE ->
      padded !! i = Some (default zero (to_float32 <$> object_state !! i)).
Proof.
  intros H. apply _format_obs_Done_inv in H
    as (x & ? & ? & ? & ? & ? & Hx & _ & _ & _ & _ & _ & Hlen & -> & _).
  eexists x, _. split_and!; [done|reflexivity|..].
  - rewrite length_app, length_fmap, length_replicate. lia.
  - intros i Hi. destruct (decide (i < length x)) as [Hlt|Hge].
    + rewrite lookup_app_l by (by rewrite length_fmap).
      rewrite list_lookup_fmap. destruct (lookup_lt_is_Some_2 x i Hlt) as [e ->]. done.
    + rewrite lookup_app_r by (rewrite length_fmap; lia).
      rewrite length_fmap, (lookup_ge_None_2 x i) by lia.
      apply lookup_replicate_2. unfold OBJECT_STATE_SIZE in *. lia.
Qed.

(** X18: [_format_obs] returns exactly when the simulator's observation
    has the six state keys, has the two camera keys when images are used,
    and its object state has at most [OBJECT_STATE_SIZE] entries; a longer
    one cannot be stored. *)
Theorem format_obs_succeeds_iff use (obs : @sim_obs E Row) :
  (exists o, _format_obs to_float32 zero use obs = Done o) <->
  (forall k, k ∈ state_keys -> is_Some (vectors obs !! k)) /\
  (use = true -> forall k, k ∈ image_keys -> is_Some (images obs !! k)) /\
  (forall x, vectors obs !! "object-state" = Some x -> length x <= OBJECT_STATE_SIZE).
Proof.
  split.
  - intros [o H]. apply _format_obs_Done_inv in H
      as (x & ? & ? & ? & ? & ? & Hx & ? & ? & ? & ? & ? & Hlen & _ & Him).
    split_and!.
    + intros k Hk. unfold state_keys in Hk.
      repeat (apply elem_of_cons in Hk as [->|Hk]; [by eexists|]).
      by apply elem_of_nil in Hk.
    + intros -> k Hk. destruct Him as (? & ? & ? & ? & _). unfold image_keys in Hk.
      repeat (apply elem_of_cons in Hk as [->|Hk]; [by eexists|]).
      by apply elem_of_nil in Hk.
    + intros x' Hx'. congruence.
  - intros (Hs & Hi & Hlen).
    assert (forall k, k ∈ state_keys -> exists xs, vector obs k = Done xs) as Hv.
    { intros k Hk. destruct (Hs k Hk) as [xs Hxs]. exists xs. by apply vector_Done_inv. }
    unfold _format_obs.
    destruct (Hv "object-state") as [x Hx]; [unfold state_keys; repeat constructor|].
    rewrite Hx; cbn [obind]. apply vector_Done_inv in Hx. specialize (Hlen x Hx).
    unfold pad_object_state. destruct (Nat.leb_spec (length x) OBJECT_STATE_SIZE); [|lia].
    cbn [obind].
    destruct (Hv "robot0_eef_pos") as [? ->]; [unfold state_keys; repeat constructor|].
    destruct (Hv "robot0_eef_quat") as [? ->]; [unfold state_keys; repeat constructor|].
    destruct (Hv "robot0_gripper_qpos") as [? ->]; [unfold state_keys; repeat constructor|].
    destruct (Hv "robot0_joint_pos") as [? ->]; [unfold state_keys; repeat constructor|].
    destruct (Hv "robot0_joint_vel") as [? ->]; [unfold state_keys; repeat constructor|].
    cbn [obind]. destruct use; [|by eexists].
    destruct (Hi eq_refl "agentview_image") as [a Ha]; [unfold image_keys; repeat constructor|].
    destruct (Hi eq_refl "robot0_eye_in_hand_image") as [w Hw]; [unfold image_keys; repeat constructor|].
    apply picture_Done_inv in Ha, Hw. rewrite Ha, Hw. cbn [obind]. by eexists.
Qed.

(** X19: an observation [_format_obs] returns has the keys of the declared
    observation space, images included exactly when they are used; its
    [MISC] entry has the declared size and its [GRIPPER] entry at most the
    declared one, being the first component of the simulator's gripper
    vector; each image is the simulator's with its rows in reverse
    order. *)
Theorem format_obs_fits_observation_space use (obs : @sim_obs E Row) o :
  _format_obs to_float32 zero use obs = Done o ->
  (obs_state o).*1 = (observation_space use).1.*1 /\
  ((fun pictures => pictures.*1) <$> obs_image o)
    = ((fun shapes => shapes.*1) <$> (observation_space use).2) /\
  (exists a, enc_get (obs_state o) MISC = Some a /\
     Some (size a) = enc_get (observation_space use).1 MISC) /\
  (exists gripper_qpos,
     vectors obs !! "robot0_gripper_qpos" = Some gripper_qpos /\
     enc_get (obs_state o) GRIPPER = Some (Raw (take 1 gripper_qpos)) /\
     length (take 1 gripper_qpos) <= 1) /\
  (forall pictures, obs_image o = Some pictures ->
     (reverse <$> dict_get pictures "agent") = images obs !! "agentview_image" /\
     (reverse <$> dict_get pictures "wrist") = images obs !! "robot0_eye_in_hand_image").
Proof.
  intros H. apply _format_obs_Done_inv in H
    as (x & ? & ? & g & ? & ? & Hx & _ & _ & Hg & _ & _ & Hlen & -> & Him).
  split_and!.
  - done.
  - destruct use; [destruct Him as (? & ? & _ & _ & ->)|rewrite Him]; done.
  - eexists. split; [reflexivity|].
    change (enc_get (observation_space use).1 MISC) with (Some OBJECT_STATE_SIZE).
    cbn [size]. rewrite length_app, length_fmap, length_replicate. f_equal.
    unfold OBJECT_STATE_SIZE in *. lia.
  - exists g. split_and!; [done|done|]. rewrite length_take. lia.
  - intros pictures Hp. destruct use.
    + destruct Him as (a & w & Ha & Hw & Hp'). rewrite Hp' in Hp. injection Hp as <-.
      cbn. by rewrite !reverse_involutive, Ha, Hw.
    + congruence.
Qed.
End AdapterFacts.

Section StepFacts.
Import Robomimic.
Context {E F Row S R I A : Type}.
Variable to_float32 : E -> F.
Variable zero : F.
Variable action_spec : S -> list A * list A.
Variable np_clip : list A -> list A -> list A -> outcome (list A).
Variable env_step : list A -> S -> (@sim_obs E Row * R * bool * gmap string I) * S.
Variable _check_success : S -> bool.
Variable of_bool : bool -> I.

Local Abbreviation step := (step to_float32 zero action_spec np_clip env_step _check_success of_bool).

Lemma step_inv te use action s :
  (exists e, step te use action s = (Failed e, s) /\
     forall clipped, ~ (exists pos euler gripper,
       action_part action "desired_delta" EE_POS = Done pos /\
       action_part action "desired_delta" EE_EULER = Done euler /\
       action_part action "desired_absolute" GRIPPER = Done gripper /\
       np_clip (pos ++ euler ++ gripper)%list (action_spec s).1 (action_spec s).2
         = Done clipped)) \/
  (exists pos euler gripper clipped obs reward done info s1,
     action_part action "desired_delta" EE_POS = Done pos /\
     action_part action "desired_delta" EE_EULER = Done euler /\
     action_part action "desired_absolute" GRIPPER = Done gripper /\
     np_clip (pos ++ euler ++ gripper)%list (action_spec s).1 (action_spec s).2 = Done clipped /\
     env_step clipped s = (obs, reward, done, info, s1) /\
     step te use action s =
       (match _format_obs to_float32 zero use obs with
        | Failed e => Failed e
        | Done o =>
            Done (o, reward, false, done || te && _check_success s1,
                  <["success" := of_bool (_check_success s1)]> info)
        end, s1)).
Proof.
  unfold Robomimic.step.
  destruct (action_part action "desired_delta" EE_POS) as [pos|e] eqn:Hpos; cbn [obind];
    [|left; exists e; split; [done|]; intros ? (? & ? & ? & ? & _); congruence].
  destruct (action_part action "desired_delta" EE_EULER) as [euler|e] eqn:Heuler; cbn [obind];
    [|left; exists e; split; [done|]; intros ? (? & ? & ? & _ & ? & _); congruence].
  destruct (action_part action "desired_absolute" GRIPPER) as [gripper|e] eqn:Hgripper;
    cbn [obind];
    [|left; exists e; split; [done|]; intros ? (? & ? & ? & _ & _ & ? & _); congruence].
  destruct (action_spec s) as [low high]; cbn [fst snd].
  destruct (np_clip (pos ++ euler ++ gripper)%list low high) as [clipped|e] eqn:Hclip.
  - right. destruct (env_step clipped s) as [[[[obs reward] done] info] s1] eqn:Hstep.
    exists pos, euler, gripper, clipped, obs, reward, done, info, s1.
    split_and!; try done.
    destruct (_format_obs to_float32 zero use obs); [|done].
    do 3 f_equal. destruct te, (_check_success s1), done; done.
  - left. exists e. split; [done|]. intros ? (? & ? & ? & ? & ? & ? & ?). congruence.
Qed.

(** X20: a step that returns has handed the simulator the three parts of
    the action, concatenated in the order position, rotation, gripper and
    clipped to the bounds the simulator had before the step; it never
    reports termination; it reports truncation exactly when the simulator
    reports being done or, with early termination on, the task is solved
    in the state after the step; it passes the simulator's reward on, and
    its [info] is the simulator's with ["success"] set to that check. *)
Theorem step_reports_success_as_truncation te use action s o reward terminated truncated info s' :
  step te use action s = (Done (o, reward, terminated, truncated, info), s') ->
  terminated = false /\
  info !! "success" = Some (of_bool (_check_success s')) /\
  exists pos euler gripper clipped obs done info0,
    action_part action "desired_delta" EE_POS = Done pos /\
    action_part action "desired_delta" EE_EULER = Done euler /\
    action_part action "desired_absolute" GRIPPER = Done gripper /\
    np_clip (pos ++ euler ++ gripper)%list (action_spec s).1 (action_spec s).2 = Done clipped /\
    env_step clipped s = (obs, reward, done, info0, s') /\
    _format_obs to_float32 zero use obs = Done o /\
    truncated = done || te && _check_success s' /\
    forall k, k <> "success" -> info !! k = info0 !! k.
Proof.
  intros H. destruct (step_inv te use action s)
    as [(e & He & _)|(pos & euler & gripper & clipped & obs & r & done & info0 & s1
                       & Hpos & Heuler & Hgripper & Hclip & Hstep & Hrun)].
  { rewrite He in H. done. }
  rewrite Hrun in H. destruct (_format_obs to_float32 zero use obs) as [o'|] eqn:Hfmt; [|done].
  injection H as -> -> <- <- <- ->.
  split_and!; [done|by rewrite lookup_insert_eq|].
  exists pos, euler, gripper, clipped, obs, done, info0.
  split_and!; try done. intros k Hk. by rewrite lookup_insert_ne.
Qed.

End StepFacts.

Lemma object_state_is_zero_padded_witness :
  exists o,
    Robomimic._format_obs id 0 true (Robomimic.example_obs [7; 8]) = Robomimic.Done o /\
    exists object_state padded,
      Robomimic.vectors (Robomimic.example_obs [7; 8]) !! "object-state" = Some object_state /\
      Robomimic.enc_get (Robomimic.obs_state o) Robomimic.MISC
        = Some (Robomimic.Float32 padded) /\
      length padded = Robomimic.OBJECT_STATE_SIZE /\
      forall i, i < Robomimic.OBJECT_STATE_SIZE ->
        padded !! i = Some (default 0 (id <$> object_state !! i)).
Proof.
  eexists. split; [vm_compute; reflexivity|].
  apply (object_state_is_zero_padded id 0 true (Robomimic.example_obs [7; 8])).
  vm_compute. reflexivity.
Defined.

Lemma format_obs_succeeds_iff_example :
  (exists o, Robomimic._format_obs id 0 true (Robomimic.example_obs (replicate 44 1))
             = Robomimic.Done o) /\
  Robomimic._format_obs id 0 true (Robomimic.example_obs (replicate 45 1))
    = Robomimic.Failed (Robomimic.CannotBroadcast 45) /\
  Robomimic._format_obs (Row:=list nat) id 0 true
      (Robomimic.SimObs (Robomimic.vectors (Robomimic.example_obs [])) ∅)
    = Robomimic.Failed (Robomimic.MissingKey "agentview_image").
Proof. split_and!; [eexists|..]; vm_compute; reflexivity. Qed.

Lemma format_obs_fits_observation_space_witness :
  exists o,
    Robomimic._format_obs id 0 true (Robomimic.example_obs [7; 8]) = Robomimic.Done o /\
    (Robomimic.obs_state o).*1 = (Robomimic.observation_space true).1.*1 /\
    ((fun pictures => pictures.*1) <$> Robomimic.obs_image o)
      = ((fun shapes => shapes.*1) <$> (Robomimic.observation_space true).2) /\
    (exists a, Robomimic.enc_get (Robomimic.obs_state o) Robomimic.MISC = Some a /\
       Some (Robomimic.size a)
         = Robomimic.enc_get (Robomimic.observation_space true).1 Robomimic.MISC) /\
    (exists gripper_qpos,
       Robomimic.vectors (Robomimic.example_obs [7; 8]) !! "robot0_gripper_qpos"
         = Some gripper_qpos /\
       Robomimic.enc_get (Robomimic.obs_state o) Robomimic.GRIPPER
         = Some (Robomimic.Raw (take 1 gripper_qpos)) /\
       length (take 1 gripper_qpos) <= 1) /\
    (forall pictures, Robomimic.obs_image o = Some pictures ->
       (reverse <$> dict_get pictures "agent")
         = Robomimic.images (Robomimic.example_obs [7; 8]) !! "agentview_image" /\
       (reverse <$> dict_get pictures "wrist")
         = Robomimic.images (Robomimic.example_obs [7; 8]) !! "robot0_eye_in_hand_image").
Proof.
  eexists. split; [vm_compute; reflexivity|].
  apply (format_obs_fits_observation_space id 0 true (Robomimic.example_obs [7; 8])).
  vm_compute. reflexivity.
Defined.

Lemma step_reports_success_as_truncation_witness :
  exists o info,
    Robomimic.step id 0 Robomimic.example_action_spec Robomimic.example_clip
        Robomimic.example_env_step Robomimic.example_check_success id
        true false Robomimic.example_action 1
      = (Robomimic.Done (o, 12, false, true, info), 2) /\
    false = false /\
    info !! "success" = Some (id (Robomimic.example_check_success 2)) /\
    exists pos euler gripper clipped obs done info0,
      Robomimic.action_part Robomimic.example_action "desired_delta" Robomimic.EE_POS
        = Robomimic.Done pos /\
      Robomimic.action_part Robomimic.example_action "desired_delta" Robomimic.EE_EULER
        = Robomimic.Done euler /\
      Robomimic.action_part Robomimic.example_action "desired_absolute" Robomimic.GRIPPER
        = Robomimic.Done gripper /\
      Robomimic.example_clip (pos ++ euler ++ gripper)%list
          (Robomimic.example_action_spec 1).1 (Robomimic.example_action_spec 1).2
        = Robomimic.Done clipped /\
      Robomimic.example_env_step clipped 1 = (obs, 12, done, info0, 2) /\
      Robomimic._format_obs id 0 false obs = Robomimic.Done o /\
      true = done || true && Robomimic.example_check_success 2 /\
      forall k, k <> "success" -> info !! k = info0 !! k.
Proof.
  eexists _, _. split; [vm_compute; reflexivity|].
  apply (step_reports_success_as_truncation id 0 Robomimic.example_action_spec
           Robomimic.example_clip Robomimic.example_env_step
           Robomimic.example_check_success id true false Robomimic.example_action 1).
  vm_compute. reflexivity.
Defined.

